(** * Speech-to-text proxy: the asynchronous job pipeline

    A shallow embedding of [main.py] (validator and submission endpoint),
    [providers.py], [llm.py], [webhook.py], [db.py] and [celery_worker.py],
    followed by the properties of the pipeline that hold (or fail) on it.

    Conventions.
    - Python [str] is [string], holding the UTF-8 encoding of the text,
      one [ascii] per byte; [bytes] is [list byte]; [int] is [Z];
      [None | str] is [option string].
    - A call that may raise returns an [outcome]: [Returns v] or [Raises e].
      Every exception modelled here derives from Python's [Exception], so
      an [except Exception] clause catches every [Raises].
    - Calls that leave the repository (provider SDKs, HTTP, the WAV reader,
      the clock, [uuid4], the process environment) are fields of [Env]:
      the code is verified for every behaviour of those calls.
    - Logging is not modelled: no claim observes it. *)

From stdpp Require Import base strings list gmap.
From Stdlib Require Import ZArith QArith Ascii String Init.Byte.

Local Open Scope string_scope.
Local Open Scope list_scope.
Local Open Scope Z_scope.

(* ===================================================================== *)
(** ** Python values, exceptions and string helpers                        *)
(* ===================================================================== *)

Module Py.

(** The exceptions the pipeline raises or catches. *)
Inductive exn : Type :=
| HTTPException (status_code : Z) (detail : string)
| ZeroDivisionError
| AttributeError          (* attribute access on [None] *)
| LibraryError (what : string). (* raised by a call outside the repository *)

Inductive outcome (A : Type) : Type :=
| Returns (a : A)
| Raises (e : exn).
Arguments Returns {A} a.
Arguments Raises {A} e.

Definition bind {A B} (m : outcome A) (k : A -> outcome B) : outcome B :=
  match m with
  | Returns a => k a
  | Raises e => Raises e
  end.

(** [try: body  except Exception as e: handler(e)] *)
Definition try_except {A} (body : outcome A) (handler : exn -> outcome A)
  : outcome A :=
  match body with
  | Returns a => Returns a
  | Raises e => handler e
  end.

Definition raised {A} (m : outcome A) : bool :=
  match m with Returns _ => false | Raises _ => true end.

(** Truthiness of a [str] and of a [None | str]. *)
Definition truthy (s : string) : bool := negb (String.eqb s "").

Definition truthy_opt (o : option string) : bool :=
  match o with
  | None => false
  | Some s => truthy s
  end.

(** [len(b)] *)
Definition len {A} (l : list A) : Z := Z.of_nat (List.length l).

(** [s.rfind(c)] for a one-character [c]: the highest index, or -1. *)
Fixpoint rfind_from (c : ascii) (s : string) (i acc : Z) : Z :=
  match s with
  | EmptyString => acc
  | String a s' => rfind_from c s' (i + 1) (if Ascii.eqb a c then i else acc)
  end.

Definition rfind (c : ascii) (s : string) : Z := rfind_from c s 0 (-1).

(** [s[:k]] and [s[k:]] for [0 <= k]. *)
Definition slice_to (k : Z) (s : string) : string :=
  substring 0 (Z.to_nat k) s.

Definition slice_from (k : Z) (s : string) : string :=
  substring (Z.to_nat k) (String.length s - Z.to_nat k)%nat s.

(** The loop of [genericpath._splitext]: walks [filenameIndex] up to
    [dotIndex] and answers whether some character before the last dot is
    not a dot ([fuel] is [dotIndex - filenameIndex]). *)
Fixpoint has_non_dot (p : string) (fuel : nat) (filenameIndex : Z) : bool :=
  match fuel with
  | O => false
  | S fuel' =>
      match String.get (Z.to_nat filenameIndex) p with
      | Some c =>
          if Ascii.eqb c "."%char then has_non_dot p fuel' (filenameIndex + 1)
          else true
      | None => true
      end
  end.

(** [os.path.splitext(p)] (posixpath: separator [/], no alternative
    separator, extension separator [.]). *)
Definition splitext (p : string) : string * string :=
  let sepIndex := rfind "/"%char p in
  let dotIndex := rfind "."%char p in
  if (sepIndex <? dotIndex)
     && has_non_dot p (Z.to_nat (dotIndex - (sepIndex + 1))) (sepIndex + 1)
  then (slice_to dotIndex p, slice_from dotIndex p)
  else (p, "").

(** [s.lower()] on ASCII letters; the bytes of other characters are
    kept. *)
Definition lower_char (c : ascii) : ascii :=
  let n := nat_of_ascii c in
  if (65 <=? n)%nat && (n <=? 90)%nat then ascii_of_nat (n + 32) else c.

Fixpoint lower (s : string) : string :=
  match s with
  | EmptyString => EmptyString
  | String c s' => String (lower_char c) (lower s')
  end.

(** The bytes with the given codes. *)
Definition utf8 (codes : list nat) : list ascii := map ascii_of_nat codes.

(** The UTF-8 encodings of the characters that [str.isspace] accepts:
    U+0009 to U+000D, U+001C to U+0020, U+0085, U+00A0, U+1680, U+2000 to
    U+200A, U+2028, U+2029, U+202F, U+205F and U+3000. *)
Definition whitespace : list (list ascii) :=
  map utf8
    [[9]; [10]; [11]; [12]; [13]; [28]; [29]; [30]; [31]; [32];
     [194; 133]; [194; 160]; [225; 154; 128];
     [226; 128; 128]; [226; 128; 129]; [226; 128; 130]; [226; 128; 131];
     [226; 128; 132]; [226; 128; 133]; [226; 128; 134]; [226; 128; 135];
     [226; 128; 136]; [226; 128; 137]; [226; 128; 138];
     [226; 128; 168]; [226; 128; 169]; [226; 128; 175];
     [226; 129; 159]; [227; 128; 128]]%nat.

(** [s] without the prefix [pre], when it starts with it. *)
Fixpoint strip_prefix (pre s : list ascii) : option (list ascii) :=
  match pre, s with
  | [], _ => Some s
  | a :: pre', b :: s' =>
      if Ascii.eqb a b then strip_prefix pre' s' else None
  | _ :: _, [] => None
  end.

(** [s] without the first of [pres] that it starts with. *)
Fixpoint strip_any (pres : list (list ascii)) (s : list ascii)
  : option (list ascii) :=
  match pres with
  | [] => None
  | pre :: rest =>
      match strip_prefix pre s with
      | Some r => Some r
      | None => strip_any rest s
      end
  end.

(** Removes leading members of [pres] from [s], at most [fuel] of them. *)
Fixpoint strip_leading (pres : list (list ascii)) (fuel : nat)
    (s : list ascii) : list ascii :=
  match fuel with
  | O => s
  | S fuel' =>
      match strip_any pres s with
      | Some r => strip_leading pres fuel' r
      | None => s
      end
  end.

(** [s.lstrip()], [s.rstrip()] and [s.strip()]: whitespace characters are
    removed from the front, from the back (the same search on the
    reversed bytes), and from both ends. *)
Definition lstrip (s : string) : string :=
  string_of_list_ascii
    (strip_leading whitespace (String.length s) (list_ascii_of_string s)).

Definition rstrip (s : string) : string :=
  string_of_list_ascii
    (rev (strip_leading (map (@rev ascii) whitespace) (String.length s)
            (rev (list_ascii_of_string s)))).

Definition strip (s : string) : string := rstrip (lstrip s).

End Py.
Export Py.

(* ===================================================================== *)
(** ** Calls that leave the repository                                     *)
(* ===================================================================== *)

Module Ext.

(** What [wave.open(...)] exposes of a parsed header. *)
Record Wave_read : Type := {
  getnframes : Z;
  getframerate : Z
}.

(** A JSON object with string-or-null values, in insertion order. *)
Definition json_object : Type := list (string * option string).

(** One behaviour of everything outside the repository. Each field is the
    result of the named call; a field of type [outcome _] may raise. *)
Record Env : Type := {
  environ : gmap string string;
  utcnow : Z;
  uuid4 : nat -> string;
  wave_open : list byte -> outcome Wave_read;
  (* openai *)
  OpenAI : string -> outcome unit;
  audio_transcriptions_create : list byte -> string -> outcome string;
  (* [completion.choices[0].message.content], possibly [None] *)
  chat_completions_create : string -> outcome (option string);
  (* elevenlabs *)
  ElevenLabs : string -> outcome unit;
  speech_to_text : list byte -> string -> outcome (gmap string string);
  (* the Google request: encode, post, [raise_for_status], [json()] and
     the path [["results"][0]["alternatives"][0]["transcript"]] *)
  google_recognize : string -> list byte -> outcome string;
  (* boto3 *)
  boto3_client : string -> string -> string -> string -> outcome unit;
  put_object : string -> string -> list byte -> outcome unit;
  start_transcription_job :
    string -> string -> string -> string -> outcome unit;
  (* [httpx.post(url, json=payload, timeout=10)] *)
  httpx_post : string -> json_object -> outcome unit
}.

(** [os.getenv(key, default)] *)
Definition getenv (E : Env) (key default : string) : string :=
  match environ E !! key with
  | Some v => v
  | None => default
  end.

(** [a / float(b)]. The operands are 32-bit header fields, so the float
    quotient compares with [1.0] and [300.0] as the exact quotient does. *)
Definition truediv (a b : Z) : outcome Q :=
  if b =? 0 then Raises ZeroDivisionError
  else if 0 <? b then Returns (Qmake a (Z.to_pos b))
  else Returns (Qmake (- a) (Z.to_pos (- b))).

Definition Qlt_bool (x y : Q) : bool := negb (Qle_bool y x).

End Ext.
Export Ext.

(* ===================================================================== *)
(** ** providers.py                                                        *)
(* ===================================================================== *)

Module Providers.

Record Provider : Type := {
  name : string;
  transcribe : Env -> list byte -> string -> outcome (option string)
}.

Definition ProviderBase : Provider := {|
  name := "base";
  transcribe := fun _ _ _ => Raises (LibraryError "NotImplementedError")
|}.

Definition OpenAIProvider : Provider := {|
  name := "openai";
  transcribe := fun E audio_bytes filename =>
    let api_key := getenv E "OPENAI_API_KEY" "" in
    if negb (truthy api_key) then Returns None
    else
      (* the client is built before the [try] *)
      bind (OpenAI E api_key) (fun _ =>
      try_except
        (bind (audio_transcriptions_create E audio_bytes filename)
              (fun transcript => Returns (Some transcript)))
        (fun _ => Returns None))
|}.

Definition ElevenLabsProvider : Provider := {|
  name := "elevenlabs";
  transcribe := fun E audio_bytes filename =>
    let api_key := getenv E "ELEVENLABS_API_KEY" "" in
    if negb (truthy api_key) then Returns None
    else
      try_except
        (bind (ElevenLabs E api_key) (fun _ =>
         bind (speech_to_text E audio_bytes filename) (fun transcript =>
         Returns (transcript !! "text"))))
        (fun _ => Returns None)
|}.

Definition GoogleProvider : Provider := {|
  name := "google";
  transcribe := fun E audio_bytes filename =>
    let api_key := getenv E "GOOGLE_API_KEY" "" in
    if negb (truthy api_key)
    then Returns (Some "Google STT (demo): This is a fake transcript.")
    else
      try_except
        (bind (google_recognize E api_key audio_bytes) (fun transcript =>
         Returns (Some transcript)))
        (fun _ => Returns None)
|}.

(** [filename.split('.')[-1]] *)
Definition last_dot_part (filename : string) : string :=
  slice_from (rfind "."%char filename + 1) filename.

Definition AWSProvider : Provider := {|
  name := "aws";
  transcribe := fun E audio_bytes filename =>
    let aws_access_key := getenv E "AWS_ACCESS_KEY_ID" "" in
    let aws_secret_key := getenv E "AWS_SECRET_ACCESS_KEY" "" in
    let aws_region := getenv E "AWS_REGION" "us-east-1" in
    if negb (truthy aws_access_key) || negb (truthy aws_secret_key)
    then Returns (Some "AWS Transcribe (demo): This is a fake transcript.")
    else
      try_except
        (bind (boto3_client E "s3" aws_access_key aws_secret_key aws_region)
           (fun _ =>
         bind (boto3_client E "transcribe" aws_access_key aws_secret_key
                 aws_region) (fun _ =>
         let bucket :=
           getenv E "AWS_TRANSCRIBE_BUCKET" "speech-proxy-demo-bucket" in
         let s3_key := "uploads/" +:+ uuid4 E 0%nat +:+ "_" +:+ filename in
         bind (put_object E bucket s3_key audio_bytes) (fun _ =>
         let job_name := "job-" +:+ uuid4 E 1%nat in
         let job_uri := "s3://" +:+ bucket +:+ "/" +:+ s3_key in
         bind (start_transcription_job E job_name job_uri
                 (last_dot_part filename) bucket) (fun _ =>
         Returns (Some ("AWS Transcribe job started: " +:+ job_name
                        +:+ " (polling not implemented in demo)")))))))
        (fun _ => Returns None)
|}.

Definition PROVIDERS : list Provider :=
  [OpenAIProvider; ElevenLabsProvider; GoogleProvider; AWSProvider].

(** [{p.name: p for p in PROVIDERS}] *)
Definition PROVIDER_MAP : gmap string Provider :=
  foldl (fun m p => <[name p := p]> m) ∅ PROVIDERS.

End Providers.

(* ===================================================================== *)
(** ** llm.py                                                              *)
(* ===================================================================== *)

Module Llm.

Definition llm_summary (E : Env) (text : string) : outcome (option string) :=
  let api_key := getenv E "OPENAI_API_KEY" "" in
  if negb (truthy api_key) || negb (truthy text) then Returns None
  else
    try_except
      (bind (OpenAI E api_key) (fun _ =>
       bind (chat_completions_create E text) (fun content =>
       match content with
       | Some c => Returns (Some (strip c))
       | None => Raises AttributeError      (* [None.strip()] *)
       end)))
      (fun _ => Returns None).

End Llm.

(* ===================================================================== *)
(** ** db.py                                                               *)
(* ===================================================================== *)

Module Db.

(** A row of [transcription_history]; [id] is the primary key. *)
Record TranscriptionHistory : Type := {
  id : string;
  filename : string;
  provider : string;
  status : string;
  text : option string;
  summary : option string;
  created_at : option Z;
  webhook_url : option string;
  user_id : option string
}.

Definition with_created_at (c : option Z) (h : TranscriptionHistory)
  : TranscriptionHistory :=
  {| id := id h; filename := filename h; provider := provider h;
     status := status h; text := text h; summary := summary h;
     created_at := c;
     webhook_url := webhook_url h; user_id := user_id h |}.

(** [session.merge(hist); session.commit()] for an object built by the
    constructor call of the worker, which sets every column but
    [created_at]: a row with the same primary key takes the eight given
    values and keeps its [created_at]; otherwise the object is inserted
    and [created_at] takes its column default, the current time. *)
Fixpoint merge (hist : TranscriptionHistory) (now : Z)
    (table : list TranscriptionHistory) : list TranscriptionHistory :=
  match table with
  | [] => [with_created_at (Some now) hist]
  | row :: rest =>
      if String.eqb (id row) (id hist)
      then with_created_at (created_at row) hist :: rest
      else row :: merge hist now rest
  end.

(** [session.query(TranscriptionHistory).filter_by(id=job_id).first()] *)
Fixpoint first_by_id (job_id : string) (table : list TranscriptionHistory)
  : option TranscriptionHistory :=
  match table with
  | [] => None
  | row :: rest =>
      if String.eqb (id row) job_id then Some row
      else first_by_id job_id rest
  end.

(** The [created_at] a write for [job] ends with: the one already
    stored, or the time of the insert. *)
Definition kept_created_at (job : string) (now : Z)
    (t : list TranscriptionHistory) : option Z :=
  match first_by_id job t with
  | Some row => created_at row
  | None => Some now
  end.

(** The rows a query for [job_id] selects. *)
Definition rows_with_id (job_id : string)
    (table : list TranscriptionHistory) : list TranscriptionHistory :=
  List.filter (fun row => String.eqb (id row) job_id) table.

(** The primary-key constraint of the table. *)
Definition primary_key (table : list TranscriptionHistory) : Prop :=
  NoDup (map id table).

(** [SELECT key, COUNT( * ) ... GROUP BY key] over [rows], as the [dict]
    that [dict(data)] builds from the result: one entry per key that
    occurs, holding the number of rows with that key. *)
Definition group_count {K : Type} `{Countable K}
    (key : TranscriptionHistory -> K) (rows : list TranscriptionHistory)
  : gmap K nat :=
  foldr (fun row m => <[key row := S (default 0%nat (m !! key row))]> m)
        ∅ rows.

(** The number of [rows] whose [key] is [k]. *)
Definition count_rows {K : Type} `{EqDecision K}
    (key : TranscriptionHistory -> K) (k : K)
    (rows : list TranscriptionHistory) : nat :=
  List.length (List.filter (fun row => bool_decide (key row = k)) rows).

(** [filter(TranscriptionHistory.status != 'completed')] *)
Definition not_completed (row : TranscriptionHistory) : bool :=
  negb (String.eqb (status row) "completed").

End Db.

(* ===================================================================== *)
(** ** The shared state: Job Store, queue, and what was observed           *)
(* ===================================================================== *)

Module Sys.

(** The message [send_task] puts on the queue: the task's [args]. *)
Record TaskArgs : Type := {
  job_id : string;
  audio_bytes : list byte;
  filename : string;
  provider_name : string;
  webhook_url : option string;
  user_id : option string
}.

(** Effects that claims count. *)
Inductive event : Type :=
| EvUuid4 (u : string)                       (* a job id was generated *)
| EvSendTask (args : TaskArgs)               (* a task was enqueued *)
| EvTranscribe (provider_name : string)      (* [provider.transcribe] *)
| EvSummary (text : string)                  (* [llm_summary] *)
| EvCommit (hist : Db.TranscriptionHistory)  (* [merge] + [commit] *)
| EvPost (url : string) (payload : json_object)  (* [httpx.post] *)
| EvResend (retries : nat).                  (* the task was re-sent *)

Record World : Type := {
  table : list Db.TranscriptionHistory;
  queue : list TaskArgs;
  uuids_drawn : nat;
  trace : list event
}.

Definition emit (e : event) (w : World) : World :=
  {| table := table w; queue := queue w; uuids_drawn := uuids_drawn w;
     trace := trace w ++ [e] |}.

Definition set_table (t : list Db.TranscriptionHistory) (w : World)
  : World :=
  {| table := t; queue := queue w; uuids_drawn := uuids_drawn w;
     trace := trace w |}.

Definition enqueue (a : TaskArgs) (w : World) : World :=
  {| table := table w; queue := queue w ++ [a];
     uuids_drawn := uuids_drawn w; trace := trace w |}.

Definition draw_uuid (w : World) : World :=
  {| table := table w; queue := queue w;
     uuids_drawn := S (uuids_drawn w); trace := trace w |}.

Definition is_commit (job : string) (e : event) : bool :=
  match e with
  | EvCommit hist => String.eqb (Db.id hist) job
  | _ => false
  end.

Definition is_post (e : event) : bool :=
  match e with EvPost _ _ => true | _ => false end.

Definition is_summary (e : event) : bool :=
  match e with EvSummary _ => true | _ => false end.

Definition is_transcribe (e : event) : bool :=
  match e with EvTranscribe _ => true | _ => false end.

Definition is_uuid4 (e : event) : bool :=
  match e with EvUuid4 _ => true | _ => false end.

Definition is_send_task (e : event) : bool :=
  match e with EvSendTask _ => true | _ => false end.

(** The events of the trace that satisfy [p], oldest first. *)
Definition observed (p : event -> bool) (w : World) : list event :=
  List.filter p (trace w).

Definition empty_world : World :=
  {| table := []; queue := []; uuids_drawn := 0; trace := [] |}.

End Sys.
Export Sys.

(* ===================================================================== *)
(** ** webhook.py                                                          *)
(* ===================================================================== *)

Module Webhook.

Definition send_webhook (E : Env) (webhook_url : string)
    (payload : json_object) (w : World) : World * outcome unit :=
  let w' := emit (EvPost webhook_url payload) w in
  (w', try_except (httpx_post E webhook_url payload)
                  (fun _ => Returns tt)).

End Webhook.

(* ===================================================================== *)
(** ** Celery: [Task.retry] and the delivery of re-sent tasks              *)
(* ===================================================================== *)

Module Celery.

Definition max_retries : nat := 3.
Definition default_retry_delay : nat := 10.

(** How one execution of a task body ends: it returns, it raises
    [celery.exceptions.Retry], or it raises another exception. *)
Inductive task_exit : Type :=
| Returned
| RaisedRetry
| Raised (e : exn).

(** [self.retry(exc=exc, throw=throw)] in a worker, for a request that
    has been retried [retries] times. Past [max_retries] it raises [exc].
    Otherwise it re-sends the task with [retries + 1] and, with the
    default [throw=True], raises [Retry]; it returns to its caller only
    with [throw=False]. *)
Definition retry (throw : bool) (retries : nat) (exc : exn) (w : World)
  : World * task_exit :=
  if (max_retries <? retries + 1)%nat then (w, Raised exc)
  else
    let w' := emit (EvResend (retries + 1)) w in
    if throw then (w', RaisedRetry) else (w', Returned).

(** How a task ends. *)
Inductive task_state : Type :=
| SUCCESS
| FAILURE (e : exn)
| PENDING.      (* only when [fuel] runs out *)

End Celery.

(* ===================================================================== *)
(** ** celery_worker.py                                                    *)
(* ===================================================================== *)

Module Celery_worker.
Import Providers Llm Webhook Celery.

(** The local variables the [try] block assigns. *)
Record Locals : Type := {
  status : string;
  text : option string;
  summary : option string
}.

(** The [try] block: the locals as it leaves them, and the exception it
    raised, if any. *)
Definition try_block (E : Env) (provider : option Provider)
    (a : TaskArgs) (w : World) : World * Locals * option exn :=
  let l0 := {| status := "failed"; text := None; summary := None |} in
  match provider with
  | None => (w, l0, Some AttributeError)     (* [None.transcribe] *)
  | Some p =>
      let w1 := emit (EvTranscribe (provider_name a)) w in
      match transcribe p E (audio_bytes a) (filename a) with
      | Raises e => (w1, l0, Some e)
      | Returns text1 =>
          let l1 := {| status := "failed"; text := text1;
                       summary := None |} in
          if truthy_opt text1 then
            let t := default "" text1 in
            let w2 := emit (EvSummary t) w1 in
            match llm_summary E t with
            | Raises e => (w2, l1, Some e)
            | Returns summary1 =>
                (w2, {| status := "completed"; text := text1;
                        summary := summary1 |}, None)
            end
          else (w1, l1, None)
      end
  end.

(** [TranscriptionHistory(id=job_id, filename=filename, ...)] *)
Definition history_row (a : TaskArgs) (l : Locals)
  : Db.TranscriptionHistory :=
  {| Db.id := job_id a; Db.filename := filename a;
     Db.provider := provider_name a;
     Db.status := status l; Db.text := text l;
     Db.summary := summary l; Db.created_at := None;
     Db.webhook_url := webhook_url a;
     Db.user_id := user_id a |}.

(** [{"job_id": job_id, "status": status, "text": text,
     "summary": summary}] *)
Definition payload (a : TaskArgs) (l : Locals) : json_object :=
  [("job_id", Some (job_id a)); ("status", Some (status l));
   ("text", text l); ("summary", summary l)].

(** One execution of the task body, for a request retried [retries]
    times. *)
Definition process_transcription_job (E : Env) (retries : nat)
    (a : TaskArgs) (w : World) : World * task_exit :=
  let provider := PROVIDER_MAP !! provider_name a in
  let '(w1, l, raised_exc) := try_block E provider a w in
  let '(w2, handled) :=
    match raised_exc with
    | None => (w1, Returned)
    | Some e => retry true retries e w1       (* [self.retry(exc=e)] *)
    end in
  match handled with
  | Raised e => (w2, Raised e)
  | RaisedRetry => (w2, RaisedRetry)
  | Returned =>
      let hist := history_row a l in
      let w3 := emit (EvCommit hist)
                  (set_table (Db.merge hist (utcnow E) (table w2)) w2) in
      if truthy_opt (webhook_url a) then
        match send_webhook E (default "" (webhook_url a)) (payload a l)
                w3 with
        | (w4, Returns _) => (w4, Returned)
        | (w4, Raises e) => (w4, Raised e)
        end
      else (w3, Returned)
  end.

(** The worker's handling of one task message and of the messages that
    [retry] re-sends for it, one after the other; [E n] is the behaviour
    of the outside world during the execution with [retries = n]. *)
Fixpoint run_task (fuel : nat) (E : nat -> Env) (retries : nat)
    (a : TaskArgs) (w : World) : World * task_state :=
  match fuel with
  | O => (w, PENDING)
  | S fuel' =>
      match process_transcription_job (E retries) retries a w with
      | (w', Returned) => (w', SUCCESS)
      | (w', RaisedRetry) => run_task fuel' E (S retries) a w'
      | (w', Raised e) => (w', FAILURE e)
      end
  end.

(** A first delivery and at most [max_retries] re-deliveries. *)
Definition deliver (E : nat -> Env) (a : TaskArgs) (w : World)
  : World * task_state :=
  run_task (S max_retries) E 0 a w.

(** The world right after [merge] and [commit] of the row for [l]. *)
Definition committed (E : Env) (a : TaskArgs) (w1 : World) (l : Locals)
  : World :=
  emit (EvCommit (history_row a l))
    (set_table (Db.merge (history_row a l) (utcnow E) (table w1)) w1).

(** What a finalized job looks like between [w] and [w']: one more write
    for its id, holding [st], [tx] and [sm], and a row with those values
    for a reader. *)
Definition finalized (w w' : World) (a : TaskArgs) (st : string)
    (tx sm : option string) : Prop :=
  observed (is_commit (job_id a)) w'
  = observed (is_commit (job_id a)) w
    ++ [EvCommit (history_row a {| status := st; text := tx;
                                   summary := sm |})]
  /\ exists row,
       Db.first_by_id (job_id a) (table w') = Some row
       /\ Db.status row = st /\ Db.text row = tx /\ Db.summary row = sm.

End Celery_worker.

(* ===================================================================== *)
(** ** main.py                                                             *)
(* ===================================================================== *)

Module Main.
Import Providers.

Record UploadFile : Type := {
  filename : string;
  file : list byte          (* what [file.file.read()] returns *)
}.

Record SubmitJobResponse : Type := {
  job_id : string;
  status : string
}.

Record JobStatusResponse : Type := {
  js_job_id : string;
  js_status : string;
  js_provider : string;
  js_text : option string;
  js_summary : option string;
  js_created_at : option Z
}.

Definition MIN_FILE_SIZE : Z := 100.
Definition MAX_FILE_SIZE : Z := 10 * 1024 * 1024.
Definition SUPPORTED_EXTENSIONS : list string :=
  [".mp3"; ".wav"; ".m4a"; ".ogg"].

(** [ext in SUPPORTED_EXTENSIONS] *)
Definition supported (ext : string) : bool :=
  existsb (String.eqb ext) SUPPORTED_EXTENSIONS.

(** The body of the [with wave.open(...)] statement and the call that
    opens it: everything inside the [try]. *)
Definition wav_try_block (E : Env) (audio_bytes : list byte)
  : outcome unit :=
  bind (wave_open E audio_bytes) (fun wavf =>
  bind (truediv (getnframes wavf) (getframerate wavf)) (fun duration =>
  if Qlt_bool duration (inject_Z 1)
  then Raises (HTTPException 400 "Audio too short.")
  else if Qlt_bool (inject_Z 300) duration
  then Raises (HTTPException 400 "Audio too long.")
  else if getframerate wavf <? 8000
  then Raises (HTTPException 400 "Sample rate too low.")
  else Returns tt)).

(** [os.path.splitext(file.filename)[1].lower()] *)
Definition extension (f : UploadFile) : string :=
  lower (snd (splitext (filename f))).

Definition validate_audio_file (E : Env) (f : UploadFile)
  : outcome (list byte) :=
  let ext := extension f in
  if negb (supported ext)
  then Raises (HTTPException 400 "Unsupported file type.")
  else
    let audio_bytes := file f in
    if (len audio_bytes =? 0) || (len audio_bytes <? MIN_FILE_SIZE)
    then Raises (HTTPException 400 "File is empty or too small.")
    else if MAX_FILE_SIZE <? len audio_bytes
    then Raises (HTTPException 400 "File is too large.")
    else if String.eqb ext ".wav"
    then
      bind (try_except (wav_try_block E audio_bytes)
              (fun _ => Raises
                 (HTTPException 400 "Corrupted or invalid WAV file.")))
           (fun _ => Returns audio_bytes)
    else Returns audio_bytes.

(** [POST /transcribe_async] *)
Definition transcribe_async (E : Env) (f : UploadFile) (provider : string)
    (webhook_url user_id : option string) (w : World)
  : World * outcome SubmitJobResponse :=
  match PROVIDER_MAP !! provider with
  | None => (w, Raises (HTTPException 400 "Unknown provider."))
  | Some _ =>
      match validate_audio_file E f with
      | Raises e => (w, Raises e)
      | Returns audio_bytes =>
          let job_id := uuid4 E (uuids_drawn w) in
          let w1 := emit (EvUuid4 job_id) (draw_uuid w) in
          let args := {| Sys.job_id := job_id;
                         Sys.audio_bytes := audio_bytes;
                         Sys.filename := filename f;
                         Sys.provider_name := provider;
                         Sys.webhook_url := webhook_url;
                         Sys.user_id := user_id |} in
          let w2 := emit (EvSendTask args) (enqueue args w1) in
          (w2, Returns {| job_id := job_id; status := "queued" |})
      end
  end.

(** [GET /job_status/{job_id}] *)
Definition job_status (job_id : string) (w : World)
  : outcome JobStatusResponse :=
  match Db.first_by_id job_id (table w) with
  | None => Raises (HTTPException 404 "Job not found.")
  | Some hist =>
      Returns {| js_job_id := Db.id hist; js_status := Db.status hist;
                 js_provider := Db.provider hist; js_text := Db.text hist;
                 js_summary := Db.summary hist;
                 js_created_at := Db.created_at hist |}
  end.

(** [GET /providers]: [[p.name for p in PROVIDERS]] *)
Definition list_providers : list string := map name PROVIDERS.

(** [GET /analytics/providers] *)
Definition analytics_providers (w : World) : gmap string nat :=
  Db.group_count Db.provider (table w).

(** [GET /analytics/errors] *)
Definition analytics_errors (w : World) : gmap string nat :=
  Db.group_count Db.provider (List.filter Db.not_completed (table w)).

(** [GET /analytics/users]; the key [None] is the group of rows without a
    user id. *)
Definition analytics_users (w : World) : gmap (option string) nat :=
  Db.group_count Db.user_id (table w).

(** What the streaming endpoint does on its socket, in order. *)
Inductive ws_event : Type :=
| WsAccept
| WsTranscribe (buffer : list byte)  (* [provider.transcribe(buffer, ...)] *)
| WsPartial (text : option string)   (* [send_json({"partial": text})] *)
| WsError (e : exn)                  (* [send_json({"error": str(e)})] *)
| WsClose.

(** What one call of [receive_bytes] gives: the bytes of a binary message,
    or an exception; for a text message that is [KeyError('bytes')]. *)
Inductive ws_received : Type :=
| Bytes (chunk : list byte)
| ReceiveRaises (e : exn).

(** A text message, as [receive_bytes] reports it. *)
Definition text_frame : ws_received :=
  ReceiveRaises (LibraryError "KeyError: 'bytes'").

(** The [while True] loop and its two handlers, for a client whose
    messages make [receive_bytes] answer [incoming], one entry per call,
    and who then disconnects. [send_json] and [close] are taken to return:
    that the client has left is what [receive_bytes] reports. The result
    is what happened on the socket and the buffer that was left. *)
Fixpoint stream_loop (E : Env) (provider : Provider) (buffer : list byte)
    (incoming : list ws_received) : list ws_event * list byte :=
  match incoming with
  | [] => ([WsClose], buffer)              (* [WebSocketDisconnect] *)
  | ReceiveRaises e :: _ =>
      ([WsError e; WsClose], buffer)       (* [except Exception] *)
  | Bytes chunk :: rest =>
      let buffer := buffer ++ chunk in
      if 16000 <? len buffer then
        match transcribe provider E buffer "stream.wav" with
        | Returns text =>
            let '(events, leftover) := stream_loop E provider [] rest in
            (WsTranscribe buffer :: WsPartial text :: events, leftover)
        | Raises e =>
            ([WsTranscribe buffer; WsError e; WsClose], buffer)
        end
      else stream_loop E provider buffer rest
  end.

(** [/ws/transcribe_stream] *)
Definition websocket_transcribe_stream (E : Env)
    (incoming : list ws_received) : outcome (list ws_event * list byte) :=
  match PROVIDER_MAP !! "openai" with
  | None => Raises (LibraryError "KeyError")
  | Some provider =>
      let '(events, leftover) := stream_loop E provider [] incoming in
      Returns (WsAccept :: events, leftover)
  end.

(** The buffers handed to the provider, oldest first. *)
Fixpoint transcribed (events : list ws_event) : list (list byte) :=
  match events with
  | [] => []
  | WsTranscribe b :: rest => b :: transcribed rest
  | _ :: rest => transcribed rest
  end.

Definition is_ws_error (e : ws_event) : bool :=
  match e with WsError _ => true | _ => false end.

Definition is_ws_partial (e : ws_event) : bool :=
  match e with WsPartial _ => true | _ => false end.

(** A partial message that carries text. *)
Definition is_text_partial (e : ws_event) : bool :=
  match e with WsPartial (Some _) => true | _ => false end.

Definition is_receive_error (r : ws_received) : bool :=
  match r with ReceiveRaises _ => true | Bytes _ => false end.

End Main.

(* ===================================================================== *)
(** ** Concrete situations                                                 *)
(* ===================================================================== *)

Module Scenario.
Import Providers.

(** Nothing is configured and every outside call succeeds trivially. *)
Definition quiet : Env := {|
  environ := ∅;
  utcnow := 1700000000;
  uuid4 := fun n => "uuid-" +:+ String (ascii_of_nat (48 + n)) "";
  wave_open := fun _ => Raises (LibraryError "wave.Error");
  OpenAI := fun _ => Returns tt;
  audio_transcriptions_create := fun _ _ => Returns "hello";
  chat_completions_create := fun _ => Returns (Some " hi ");
  ElevenLabs := fun _ => Returns tt;
  speech_to_text := fun _ _ => Returns ∅;
  google_recognize := fun _ _ => Returns "hello";
  boto3_client := fun _ _ _ _ => Returns tt;
  put_object := fun _ _ _ => Returns tt;
  start_transcription_job := fun _ _ _ _ => Returns tt;
  httpx_post := fun _ _ => Returns tt
|}.

Definition with_environ (vars : gmap string string) (E : Env) : Env := {|
  environ := vars;
  utcnow := utcnow E; uuid4 := uuid4 E; wave_open := wave_open E;
  OpenAI := OpenAI E;
  audio_transcriptions_create := audio_transcriptions_create E;
  chat_completions_create := chat_completions_create E;
  ElevenLabs := ElevenLabs E; speech_to_text := speech_to_text E;
  google_recognize := google_recognize E;
  boto3_client := boto3_client E; put_object := put_object E;
  start_transcription_job := start_transcription_job E;
  httpx_post := httpx_post E
|}.

Definition with_wave (r : outcome Wave_read) (E : Env) : Env := {|
  environ := environ E;
  utcnow := utcnow E; uuid4 := uuid4 E; wave_open := fun _ => r;
  OpenAI := OpenAI E;
  audio_transcriptions_create := audio_transcriptions_create E;
  chat_completions_create := chat_completions_create E;
  ElevenLabs := ElevenLabs E; speech_to_text := speech_to_text E;
  google_recognize := google_recognize E;
  boto3_client := boto3_client E; put_object := put_object E;
  start_transcription_job := start_transcription_job E;
  httpx_post := httpx_post E
|}.

Definition with_OpenAI (r : outcome unit) (E : Env) : Env := {|
  environ := environ E;
  utcnow := utcnow E; uuid4 := uuid4 E; wave_open := wave_open E;
  OpenAI := fun _ => r;
  audio_transcriptions_create := audio_transcriptions_create E;
  chat_completions_create := chat_completions_create E;
  ElevenLabs := ElevenLabs E; speech_to_text := speech_to_text E;
  google_recognize := google_recognize E;
  boto3_client := boto3_client E; put_object := put_object E;
  start_transcription_job := start_transcription_job E;
  httpx_post := httpx_post E
|}.

Definition with_transcript (r : outcome string) (E : Env) : Env := {|
  environ := environ E;
  utcnow := utcnow E; uuid4 := uuid4 E; wave_open := wave_open E;
  OpenAI := OpenAI E;
  audio_transcriptions_create := fun _ _ => r;
  chat_completions_create := chat_completions_create E;
  ElevenLabs := ElevenLabs E; speech_to_text := speech_to_text E;
  google_recognize := google_recognize E;
  boto3_client := boto3_client E; put_object := put_object E;
  start_transcription_job := start_transcription_job E;
  httpx_post := httpx_post E
|}.

Definition with_chat (r : outcome (option string)) (E : Env) : Env := {|
  environ := environ E;
  utcnow := utcnow E; uuid4 := uuid4 E; wave_open := wave_open E;
  OpenAI := OpenAI E;
  audio_transcriptions_create := audio_transcriptions_create E;
  chat_completions_create := fun _ => r;
  ElevenLabs := ElevenLabs E; speech_to_text := speech_to_text E;
  google_recognize := google_recognize E;
  boto3_client := boto3_client E; put_object := put_object E;
  start_transcription_job := start_transcription_job E;
  httpx_post := httpx_post E
|}.

Definition with_post (r : outcome unit) (E : Env) : Env := {|
  environ := environ E;
  utcnow := utcnow E; uuid4 := uuid4 E; wave_open := wave_open E;
  OpenAI := OpenAI E;
  audio_transcriptions_create := audio_transcriptions_create E;
  chat_completions_create := chat_completions_create E;
  ElevenLabs := ElevenLabs E; speech_to_text := speech_to_text E;
  google_recognize := google_recognize E;
  boto3_client := boto3_client E; put_object := put_object E;
  start_transcription_job := start_transcription_job E;
  httpx_post := fun _ _ => r
|}.

(** [OPENAI_API_KEY] is set. *)
Definition keyed : Env :=
  with_environ {[ "OPENAI_API_KEY" := "sk-test" ]} quiet.

(** A body of [n] zero bytes. *)
Definition zeros (n : nat) : list byte := replicate n x00.

Definition upload (filename : string) (n : nat) : Main.UploadFile :=
  {| Main.filename := filename; Main.file := zeros n |}.

Definition job (provider_name : string) (webhook_url : option string)
  : TaskArgs :=
  {| job_id := "job-1"; audio_bytes := zeros 100;
     filename := "talk.mp3"; provider_name := provider_name;
     webhook_url := webhook_url; user_id := None |}.

(** One byte more than the streaming endpoint buffers before a flush. *)
Definition big_chunk : list byte := zeros (Z.to_nat 16001).

End Scenario.

(* ===================================================================== *)
(** ** Sanity checks of the embedding                                      *)
(* ===================================================================== *)

Import Providers Llm Webhook Celery Celery_worker Main Scenario.

Example registry_keys :
  dom PROVIDER_MAP = ({["openai"; "elevenlabs"; "google"; "aws"]} : gset string).
Proof. vm_compute. reflexivity. Qed.

Example splitext_wav : splitext "a/b.c/Talk.WAV" = ("a/b.c/Talk", ".WAV").
Proof. reflexivity. Qed.

Example splitext_dotfile : splitext "dir/..bashrc" = ("dir/..bashrc", "").
Proof. reflexivity. Qed.

Example splitext_none : splitext "a.b/readme" = ("a.b/readme", "").
Proof. reflexivity. Qed.

Example lower_ext : lower ".WaV" = ".wav".
Proof. reflexivity. Qed.

Example strip_both : strip "  hi there
" = "hi there".
Proof. reflexivity. Qed.

(** U+00A0 and U+0085 before "hi", U+3000 after it. *)
Example strip_unicode_spaces :
  strip (string_of_list_ascii
           (utf8 [194; 160; 194; 133; 104; 105; 227; 128; 128]%nat))
  = "hi".
Proof. reflexivity. Qed.

(** "voil" and U+00E0, whose encoding ends in the byte 160: kept. *)
Example strip_keeps_letters :
  strip (string_of_list_ascii (utf8 [118; 111; 105; 108; 195; 160]%nat))
  = string_of_list_ascii (utf8 [118; 111; 105; 108; 195; 160]%nat).
Proof. reflexivity. Qed.

Example accepts_plain_mp3 :
  validate_audio_file quiet (upload "talk.mp3" 100) = Returns (zeros 100).
Proof. reflexivity. Qed.

Example rejects_fifty_bytes :
  validate_audio_file quiet (upload "talk.mp3" 50)
  = Raises (HTTPException 400 "File is empty or too small.").
Proof. reflexivity. Qed.

Example accepts_two_second_wav :
  validate_audio_file
    (with_wave (Returns {| getnframes := 16000; getframerate := 8000 |}) quiet)
    (upload "talk.wav" 100)
  = Returns (zeros 100).
Proof. reflexivity. Qed.

(* ===================================================================== *)
(** ** Validator ([main.py])                                               *)
(* ===================================================================== *)

Section Validator.
Variable E : Env.
Variable f : UploadFile.

Lemma supported_spec (ext : string) :
  supported ext = true <-> ext ∈ SUPPORTED_EXTENSIONS.
Proof.
  unfold supported. rewrite existsb_exists. split.
  - intros (x & Hin & Heq). apply String.eqb_eq in Heq. subst x.
    by apply list_elem_of_In.
  - intros Hin. exists ext. split; [by apply list_elem_of_In|].
    apply String.eqb_refl.
Qed.

Lemma supported_false (ext : string) :
  supported ext = false <-> ext ∉ SUPPORTED_EXTENSIONS.
Proof.
  rewrite <- supported_spec. destruct (supported ext); split; congruence.
Qed.

Lemma validate_unsupported :
  extension f ∉ SUPPORTED_EXTENSIONS ->
  validate_audio_file E f
  = Raises (HTTPException 400 "Unsupported file type.").
Proof.
  intros H. apply supported_false in H.
  unfold validate_audio_file. by rewrite H.
Qed.

Lemma validate_too_small :
  extension f ∈ SUPPORTED_EXTENSIONS ->
  len (file f) < 100 ->
  validate_audio_file E f
  = Raises (HTTPException 400 "File is empty or too small.").
Proof.
  intros H Hlen. apply supported_spec in H.
  unfold validate_audio_file. rewrite H. simpl.
  assert ((len (file f) <? MIN_FILE_SIZE) = true) as ->
    by (apply Z.ltb_lt; unfold MIN_FILE_SIZE; lia).
  by rewrite orb_true_r.
Qed.

Lemma size_checks_pass :
  100 <= len (file f) <= 10485760 ->
  ((len (file f) =? 0) || (len (file f) <? MIN_FILE_SIZE)) = false
  /\ (MAX_FILE_SIZE <? len (file f)) = false.
Proof.
  unfold MIN_FILE_SIZE, MAX_FILE_SIZE. intros [Hlo Hhi]. split.
  - apply orb_false_iff. split; [apply Z.eqb_neq | apply Z.ltb_ge]; lia.
  - apply Z.ltb_ge. lia.
Qed.

Lemma validate_too_large :
  extension f ∈ SUPPORTED_EXTENSIONS ->
  10485760 < len (file f) ->
  validate_audio_file E f = Raises (HTTPException 400 "File is too large.").
Proof.
  intros H Hlen. apply supported_spec in H.
  unfold validate_audio_file. rewrite H. simpl.
  assert (((len (file f) =? 0) || (len (file f) <? MIN_FILE_SIZE)) = false)
    as ->.
  { apply orb_false_iff. unfold MIN_FILE_SIZE.
    split; [apply Z.eqb_neq | apply Z.ltb_ge]; lia. }
  assert ((MAX_FILE_SIZE <? len (file f)) = true) as ->
    by (apply Z.ltb_lt; unfold MAX_FILE_SIZE; lia).
  reflexivity.
Qed.

Lemma validate_non_wav :
  extension f ∈ SUPPORTED_EXTENSIONS ->
  extension f <> ".wav" ->
  100 <= len (file f) <= 10485760 ->
  validate_audio_file E f = Returns (file f).
Proof.
  intros H Hwav Hlen. apply supported_spec in H.
  destruct (size_checks_pass Hlen) as [Hmin Hmax].
  unfold validate_audio_file. rewrite H, Hmin, Hmax. simpl.
  apply String.eqb_neq in Hwav. by rewrite Hwav.
Qed.

(** What the validator answers for a [.wav] of admissible size: the
    [try] block decides, and whatever it raises leaves as "corrupted". *)
Lemma validate_wav :
  extension f = ".wav" ->
  100 <= len (file f) <= 10485760 ->
  validate_audio_file E f
  = match wav_try_block E (file f) with
    | Returns _ => Returns (file f)
    | Raises _ =>
        Raises (HTTPException 400 "Corrupted or invalid WAV file.")
    end.
Proof.
  intros Hext Hlen. destruct (size_checks_pass Hlen) as [Hmin Hmax].
  unfold validate_audio_file. rewrite Hext, Hmin, Hmax. simpl.
  by destruct (wav_try_block E (file f)).
Qed.

End Validator.

(** C7. A file whose extension is in the allow-list but is not [.wav] is
    admitted on size alone: with 100 to 10 MiB of bytes, whatever they are,
    the validator returns them, for every behaviour of the WAV reader (it
    is not consulted). *)
Theorem non_wav_admitted_on_size_alone
    (E : Env) (f : UploadFile) :
  extension f ∈ SUPPORTED_EXTENSIONS ->
  extension f <> ".wav" ->
  100 <= len (file f) <= 10 * 1024 * 1024 ->
  validate_audio_file E f = Returns (file f).
Proof.
  intros Hext Hwav Hlen. apply validate_non_wav; auto.
Qed.

Lemma non_wav_admitted_on_size_alone_witness :
  validate_audio_file
    (with_wave (Returns {| getnframes := 1; getframerate := 4000 |}) quiet)
    (upload "noise.MP3" 100)
  = Returns (zeros 100).
Proof.
  apply (non_wav_admitted_on_size_alone
           (with_wave (Returns {| getnframes := 1; getframerate := 4000 |})
              quiet)
           (upload "noise.MP3" 100)).
  - apply supported_spec. reflexivity.
  - vm_compute. discriminate.
  - vm_compute. split; discriminate.
Defined.

(* ===================================================================== *)
(** ** Submission endpoint ([main.py])                                     *)
(* ===================================================================== *)

Section Submission.
Variable E : Env.
Variable f : UploadFile.
Variables (provider : string) (webhook_url user_id : option string).
Variable w : World.

Lemma reject_leaves_world (w' : World) (e : exn) :
  transcribe_async E f provider webhook_url user_id w = (w', Raises e) ->
  w' = w.
Proof.
  unfold transcribe_async.
  destruct (PROVIDER_MAP !! provider); [|congruence].
  destruct (validate_audio_file E f); congruence.
Qed.

Lemma invalid_is_rejected :
  raised (validate_audio_file E f) = true ->
  exists e,
    transcribe_async E f provider webhook_url user_id w = (w, Raises e).
Proof.
  unfold transcribe_async. intros Hv.
  destruct (PROVIDER_MAP !! provider); [|eauto].
  destruct (validate_audio_file E f); [discriminate | eauto].
Qed.

Lemma accept_follows_validation (w' : World) (r : SubmitJobResponse) :
  transcribe_async E f provider webhook_url user_id w = (w', Returns r) ->
  exists args,
    validate_audio_file E f = Returns (audio_bytes args)
    /\ Sys.job_id args = job_id r
    /\ trace w' = trace w ++ [EvUuid4 (job_id r); EvSendTask args]
    /\ queue w' = queue w ++ [args]
    /\ table w' = table w.
Proof.
  unfold transcribe_async.
  destruct (PROVIDER_MAP !! provider); [|congruence].
  destruct (validate_audio_file E f) as [bytes|]; [|congruence].
  intros Heq. inversion Heq; subst; clear Heq. eexists. simpl.
  repeat split; try reflexivity. by rewrite <- app_assoc.
Qed.

End Submission.

(** C6. The validator checks the extension first, then the 100-byte
    minimum, then the 10 MiB maximum, each with status 400 and its reason;
    the endpoint draws a job id and enqueues only after the validator has
    returned, and a rejected submission changes nothing (no job id, no
    task). *)
Theorem validation_order_and_gate
    (E : Env) (f : UploadFile) (provider : string)
    (webhook_url user_id : option string) (w : World) :
  (extension f ∉ SUPPORTED_EXTENSIONS ->
   validate_audio_file E f
   = Raises (HTTPException 400 "Unsupported file type."))
  /\ (extension f ∈ SUPPORTED_EXTENSIONS -> len (file f) < 100 ->
      validate_audio_file E f
      = Raises (HTTPException 400 "File is empty or too small."))
  /\ (extension f ∈ SUPPORTED_EXTENSIONS -> 10 * 1024 * 1024 < len (file f) ->
      validate_audio_file E f
      = Raises (HTTPException 400 "File is too large."))
  /\ (raised (validate_audio_file E f) = true ->
      exists e,
        transcribe_async E f provider webhook_url user_id w = (w, Raises e))
  /\ (forall w' e,
        transcribe_async E f provider webhook_url user_id w = (w', Raises e) ->
        w' = w)
  /\ (forall w' r,
        transcribe_async E f provider webhook_url user_id w = (w', Returns r) ->
        exists args,
          validate_audio_file E f = Returns (audio_bytes args)
          /\ Sys.job_id args = job_id r
          /\ trace w' = trace w ++ [EvUuid4 (job_id r); EvSendTask args]
          /\ queue w' = queue w ++ [args]).
Proof.
  split; [apply validate_unsupported|].
  split; [apply validate_too_small|].
  split; [apply validate_too_large|].
  split; [apply invalid_is_rejected|].
  split; [intros w' e; apply reject_leaves_world|].
  intros w' r Hrun.
  destruct (accept_follows_validation _ _ _ _ _ _ _ _ Hrun)
    as (args & ? & ? & ? & ? & ?).
  exists args. auto.
Qed.

Lemma validation_order_and_gate_witness :
  validate_audio_file quiet (upload "notes.txt" 50)
  = Raises (HTTPException 400 "Unsupported file type.")
  /\ validate_audio_file quiet (upload "talk.wav" 50)
     = Raises (HTTPException 400 "File is empty or too small.")
  /\ exists e,
       transcribe_async quiet (upload "talk.wav" 50) "openai" None None
         empty_world
       = (empty_world, Raises e).
Proof.
  split; [|split].
  - apply (validation_order_and_gate quiet (upload "notes.txt" 50) "openai"
             None None empty_world).
    apply supported_false. reflexivity.
  - apply (validation_order_and_gate quiet (upload "talk.wav" 50) "openai"
             None None empty_world).
    + apply supported_spec. reflexivity.
    + vm_compute. reflexivity.
  - apply (validation_order_and_gate quiet (upload "talk.wav" 50) "openai"
             None None empty_world).
    vm_compute. reflexivity.
Defined.

(** C8. A submission whose provider key is not in the registry is answered
    with status 400 and changes nothing: no job id is drawn, nothing is
    enqueued, and the Job Store is as before. *)
Theorem unknown_provider_rejected
    (E : Env) (f : UploadFile) (provider : string)
    (webhook_url user_id : option string) (w : World) :
  PROVIDER_MAP !! provider = None ->
  transcribe_async E f provider webhook_url user_id w
  = (w, Raises (HTTPException 400 "Unknown provider.")).
Proof.
  intros Hp. unfold transcribe_async. by rewrite Hp.
Qed.

Lemma unknown_provider_rejected_witness :
  transcribe_async quiet (upload "talk.mp3" 100) "azure" None None empty_world
  = (empty_world, Raises (HTTPException 400 "Unknown provider.")).
Proof.
  apply (unknown_provider_rejected quiet (upload "talk.mp3" 100) "azure").
  vm_compute. reflexivity.
Defined.

(* ===================================================================== *)
(** ** WAV rules of the validator                                          *)
(* ===================================================================== *)

(** For a [.wav] of admissible size the validator has two answers only:
    the bytes, or "corrupted". The reasons raised inside the [try] block
    never leave it. *)
Lemma wav_answers (E : Env) (f : UploadFile) :
  extension f = ".wav" ->
  100 <= len (file f) <= 10485760 ->
  validate_audio_file E f = Returns (file f)
  \/ validate_audio_file E f
     = Raises (HTTPException 400 "Corrupted or invalid WAV file.").
Proof.
  intros Hext Hlen. rewrite (validate_wav E f Hext Hlen).
  destruct (wav_try_block E (file f)); auto.
Qed.

(** The [try] block does raise the specific reasons. *)
Lemma wav_try_block_short (E : Env) (b : list byte) (h : Wave_read) :
  wave_open E b = Returns h ->
  0 < getframerate h -> getnframes h < getframerate h ->
  wav_try_block E b = Raises (HTTPException 400 "Audio too short.").
Proof.
  intros Hopen Hrate Hshort. unfold wav_try_block. rewrite Hopen. simpl.
  unfold truediv.
  assert ((getframerate h =? 0) = false) as -> by (apply Z.eqb_neq; lia).
  assert ((0 <? getframerate h) = true) as -> by (apply Z.ltb_lt; lia).
  simpl. unfold Qlt_bool, Qle_bool. simpl.
  assert ((1 * Z.pos (Z.to_pos (getframerate h)) <=? getnframes h * 1)
          = false) as ->; [|reflexivity].
  apply Z.leb_gt. rewrite Z2Pos.id by lia. lia.
Qed.

(** C2. A [.wav] of 0.5 s, one of 400 s and one sampled at 4000 Hz are
    each rejected with status 400, but with the reason "Corrupted or
    invalid WAV file.": the [try] block raises "Audio too short.", "Audio
    too long." and "Sample rate too low.", and the enclosing
    [except Exception] replaces each of them. *)
Theorem wav_reasons_replaced_by_corrupted :
  let half_second := {| getnframes := 4000; getframerate := 8000 |} in
  let long := {| getnframes := 3200000; getframerate := 8000 |} in
  let low_rate := {| getnframes := 8000; getframerate := 4000 |} in
  let corrupted := Raises (HTTPException 400 "Corrupted or invalid WAV file.") in
  extension (upload "talk.wav" 100) = ".wav"
  /\ wav_try_block (with_wave (Returns half_second) quiet) (zeros 100)
     = Raises (HTTPException 400 "Audio too short.")
  /\ validate_audio_file (with_wave (Returns half_second) quiet)
       (upload "talk.wav" 100) = corrupted
  /\ wav_try_block (with_wave (Returns long) quiet) (zeros 100)
     = Raises (HTTPException 400 "Audio too long.")
  /\ validate_audio_file (with_wave (Returns long) quiet)
       (upload "talk.wav" 100) = corrupted
  /\ wav_try_block (with_wave (Returns low_rate) quiet) (zeros 100)
     = Raises (HTTPException 400 "Sample rate too low.")
  /\ validate_audio_file (with_wave (Returns low_rate) quiet)
       (upload "talk.wav" 100) = corrupted.
Proof.
  repeat split; vm_compute; reflexivity.
Qed.

(* ===================================================================== *)
(** ** Providers ([providers.py]) and the summarizer ([llm.py])            *)
(* ===================================================================== *)

Ltac case_outcomes :=
  repeat match goal with
    | |- context [if ?b then _ else _] => destruct b; simpl
    | |- context [bind ?m _] => destruct m; simpl
    | |- context [match ?m with Some _ => _ | None => _ end] =>
        destruct m; simpl
    end.

Lemma ElevenLabs_never_raises (E : Env) (b : list byte) (fn : string) :
  raised (transcribe ElevenLabsProvider E b fn) = false.
Proof. simpl. case_outcomes; reflexivity. Qed.

Lemma Google_never_raises (E : Env) (b : list byte) (fn : string) :
  raised (transcribe GoogleProvider E b fn) = false.
Proof. simpl. case_outcomes; reflexivity. Qed.

Lemma AWS_never_raises (E : Env) (b : list byte) (fn : string) :
  raised (transcribe AWSProvider E b fn) = false.
Proof. simpl. case_outcomes; reflexivity. Qed.

(** The OpenAI provider raises exactly when a key is set and building the
    client raises: that call stands before the [try]. *)
Lemma OpenAI_raises_iff (E : Env) (b : list byte) (fn : string) (e : exn) :
  transcribe OpenAIProvider E b fn = Raises e
  <-> truthy (getenv E "OPENAI_API_KEY" "") = true
      /\ OpenAI E (getenv E "OPENAI_API_KEY" "") = Raises e.
Proof.
  simpl. destruct (truthy (getenv E "OPENAI_API_KEY" "")); simpl.
  - destruct (OpenAI E _) as [[]|e']; simpl.
    + destruct (audio_transcriptions_create E b fn); simpl;
        (split; [discriminate | intros [_ ?]; discriminate]).
    + split; [intros [= ->]; auto | intros [_ [= ->]]; auto].
  - split; [discriminate | intros [? _]; discriminate].
Qed.

Lemma llm_summary_never_raises (E : Env) (text : string) :
  raised (llm_summary E text) = false.
Proof. unfold llm_summary. case_outcomes; reflexivity. Qed.

Lemma llm_summary_returns (E : Env) (text : string) :
  exists s, llm_summary E text = Returns s.
Proof.
  pose proof (llm_summary_never_raises E text) as H.
  destruct (llm_summary E text); [eauto | discriminate].
Qed.

(** When the chat call raises, the summary is absent. *)
Lemma llm_summary_failure (E : Env) (text : string) (e : exn) :
  chat_completions_create E text = Raises e ->
  llm_summary E text = Returns None.
Proof.
  intros H. unfold llm_summary. rewrite H. case_outcomes; reflexivity.
Qed.

Lemma registered (k : string) (p : Provider) :
  PROVIDER_MAP !! k = Some p -> p ∈ PROVIDERS /\ name p = k.
Proof.
  unfold PROVIDER_MAP, PROVIDERS. simpl. intros H.
  repeat (rewrite lookup_insert in H; case_decide;
          [inversion H; subst; split; [set_solver | reflexivity]|]).
  by rewrite lookup_empty in H.
Qed.

(** C3. The OpenAI provider is registered, and with [OPENAI_API_KEY] set
    and the construction of its client raising, its [transcribe] raises
    that exception to its caller instead of returning the absent result. *)
Theorem OpenAI_transcribe_raises :
  PROVIDER_MAP !! "openai" = Some OpenAIProvider
  /\ transcribe OpenAIProvider
       (with_OpenAI (Raises (LibraryError "invalid proxy URL")) keyed)
       (zeros 100) "talk.mp3"
     = Raises (LibraryError "invalid proxy URL").
Proof.
  split; vm_compute; reflexivity.
Qed.

Lemma others_never_raise (E : Env) (k : string) (p : Provider)
    (b : list byte) (fn : string) :
  PROVIDER_MAP !! k = Some p -> k <> "openai" ->
  raised (transcribe p E b fn) = false.
Proof.
  intros Hp Hk. destruct (registered k p Hp) as [Hin Hname].
  unfold PROVIDERS in Hin.
  repeat (apply elem_of_cons in Hin; destruct Hin as [->|Hin]).
  - simpl in Hname. congruence.
  - apply ElevenLabs_never_raises.
  - apply Google_never_raises.
  - apply AWS_never_raises.
  - by apply elem_of_nil in Hin.
Qed.

(* ===================================================================== *)
(** ** Job Store ([db.py])                                                 *)
(* ===================================================================== *)

Section Store.
Import Db.

Lemma first_by_id_merge (h : TranscriptionHistory) (now : Z)
    (t : list TranscriptionHistory) :
  first_by_id (id h) (merge h now t)
  = Some (with_created_at (kept_created_at (id h) now t) h).
Proof.
  unfold kept_created_at.
  induction t as [|row rest IH]; simpl.
  - by rewrite String.eqb_refl.
  - destruct (String.eqb (id row) (id h)) eqn:Heq; simpl.
    + by rewrite String.eqb_refl.
    + rewrite Heq. exact IH.
Qed.

Lemma first_by_id_merge_other (h : TranscriptionHistory) (now : Z)
    (job : string) (t : list TranscriptionHistory) :
  job <> id h ->
  first_by_id job (merge h now t) = first_by_id job t.
Proof.
  intros Hne. induction t as [|row rest IH]; simpl.
  - assert (String.eqb (id h) job = false) as ->; [|done].
    apply String.eqb_neq. congruence.
  - destruct (String.eqb (id row) (id h)) eqn:Heq; simpl.
    + apply String.eqb_eq in Heq.
      assert (String.eqb (id h) job = false) as ->
        by (apply String.eqb_neq; congruence).
      assert (String.eqb (id row) job = false) as ->
        by (apply String.eqb_neq; congruence).
      done.
    + by rewrite IH.
Qed.

Lemma rows_with_id_absent (job : string) (t : list TranscriptionHistory) :
  job ∉ map id t -> rows_with_id job t = [].
Proof.
  induction t as [|row rest IH]; simpl; [done|].
  intros Hnot. apply not_elem_of_cons in Hnot as [Hne Hrest].
  assert (String.eqb (id row) job = false) as ->
    by (apply String.eqb_neq; congruence).
  by apply IH.
Qed.

Lemma ids_after_merge (h : TranscriptionHistory) (now : Z)
    (t : list TranscriptionHistory) :
  map id (merge h now t)
  = if bool_decide (id h ∈ map id t) then map id t
    else map id t ++ [id h].
Proof.
  induction t as [|row rest IH]; simpl; [done|].
  destruct (String.eqb (id row) (id h)) eqn:Heq; simpl.
  - apply String.eqb_eq in Heq. rewrite bool_decide_eq_true_2.
    + by rewrite Heq.
    + rewrite Heq. apply elem_of_cons. by left.
  - apply String.eqb_neq in Heq. rewrite IH.
    destruct (bool_decide (id h ∈ map id rest)) eqn:Hin.
    + apply bool_decide_eq_true in Hin.
      rewrite bool_decide_eq_true_2; [done|].
      apply elem_of_cons. by right.
    + apply bool_decide_eq_false in Hin.
      rewrite bool_decide_eq_false_2; [done|].
      intros [?|?]%elem_of_cons; congruence.
Qed.

Lemma merge_keeps_primary_key (h : TranscriptionHistory) (now : Z)
    (t : list TranscriptionHistory) :
  primary_key t -> primary_key (merge h now t).
Proof.
  unfold primary_key. intros Hpk. rewrite ids_after_merge.
  case_bool_decide as Hin; [done|].
  apply NoDup_app. split; [done|]. split.
  - intros x Hx [->|[]%elem_of_nil]%elem_of_cons. contradiction.
  - apply NoDup_singleton.
Qed.

Lemma rows_with_id_merge (h : TranscriptionHistory) (now : Z)
    (t : list TranscriptionHistory) :
  primary_key t ->
  rows_with_id (id h) (merge h now t)
  = [with_created_at (kept_created_at (id h) now t) h].
Proof.
  unfold primary_key, kept_created_at.
  induction t as [|row rest IH]; simpl; intros Hpk.
  - by rewrite String.eqb_refl.
  - apply NoDup_cons in Hpk as [Hfresh Hpk].
    destruct (String.eqb (id row) (id h)) eqn:Heq; simpl.
    + rewrite String.eqb_refl. f_equal.
      apply String.eqb_eq in Heq. rewrite <- Heq.
      by apply rows_with_id_absent.
    + rewrite Heq. by apply IH.
Qed.

End Store.

(** C9. Two upsert writes for one job id, on a table that respects its
    primary key, leave exactly one row for that id; the row holds the
    values of the second write, with the [created_at] of the first. *)
Theorem upsert_last_write_wins
    (t : list Db.TranscriptionHistory) (h1 h2 : Db.TranscriptionHistory)
    (now1 now2 : Z) :
  Db.primary_key t ->
  Db.id h1 = Db.id h2 ->
  exists r1 row,
    Db.first_by_id (Db.id h1) (Db.merge h1 now1 t) = Some r1
    /\ Db.rows_with_id (Db.id h2) (Db.merge h2 now2 (Db.merge h1 now1 t))
       = [row]
    /\ Db.first_by_id (Db.id h2) (Db.merge h2 now2 (Db.merge h1 now1 t))
       = Some row
    /\ row = Db.with_created_at (Db.created_at r1) h2
    /\ Db.primary_key (Db.merge h2 now2 (Db.merge h1 now1 t)).
Proof.
  intros Hpk Hid.
  pose proof (merge_keeps_primary_key h1 now1 t Hpk) as Hpk1.
  exists (Db.with_created_at (Db.kept_created_at (Db.id h1) now1 t) h1).
  exists (Db.with_created_at
            (Db.kept_created_at (Db.id h2) now2 (Db.merge h1 now1 t)) h2).
  split; [apply first_by_id_merge|].
  split; [by apply rows_with_id_merge|].
  split; [apply first_by_id_merge|].
  split; [|by apply merge_keeps_primary_key].
  f_equal. unfold Db.kept_created_at at 1.
  rewrite <- Hid, first_by_id_merge. reflexivity.
Qed.

Lemma upsert_last_write_wins_witness :
  let retried :=
    history_row (job "openai" None)
      {| Celery_worker.status := "completed"; text := Some "hello";
         summary := None |} in
  let first :=
    history_row (job "openai" None)
      {| Celery_worker.status := "failed"; text := None;
         summary := None |} in
  Db.rows_with_id "job-1" (Db.merge retried 20 (Db.merge first 10 []))
  = [Db.with_created_at (Some 10) retried].
Proof.
  intros retried first.
  destruct (upsert_last_write_wins [] first retried 10 20)
    as (r1 & row & H1 & Hrows & _ & Hrow & _).
  - apply NoDup_nil_2.
  - reflexivity.
  - rewrite Hrow in Hrows. vm_compute in H1. injection H1 as <-.
    exact Hrows.
Defined.

(* ===================================================================== *)
(** ** Worker ([celery_worker.py])                                          *)
(* ===================================================================== *)

Lemma observed_emit (p : event -> bool) (e : event) (w : World) :
  observed p (emit e w) = observed p w ++ (if p e then [e] else []).
Proof.
  unfold observed, emit. simpl. rewrite List.filter_app. simpl.
  by destruct (p e).
Qed.

Lemma observed_set_table (p : event -> bool)
    (t : list Db.TranscriptionHistory) (w : World) :
  observed p (set_table t w) = observed p w.
Proof. reflexivity. Qed.

Section Attempt.
Variable E : Env.
Variable retries : nat.
Variable a : TaskArgs.
Variable w : World.

Lemma attempt_finalizes (w1 : World) (l : Locals) :
  try_block E (PROVIDER_MAP !! provider_name a) a w = (w1, l, None) ->
  process_transcription_job E retries a w
  = (if truthy_opt (Sys.webhook_url a)
     then emit (EvPost (default "" (Sys.webhook_url a)) (payload a l))
            (committed E a w1 l)
     else committed E a w1 l,
     Returned).
Proof.
  intros Htry. unfold process_transcription_job. rewrite Htry.
  fold (committed E a w1 l).
  destruct (truthy_opt (Sys.webhook_url a)); [|reflexivity].
  unfold send_webhook.
  by destruct (httpx_post E _ _).
Qed.

Lemma attempt_raises (w1 : World) (l : Locals) (e : exn) :
  try_block E (PROVIDER_MAP !! provider_name a) a w = (w1, l, Some e) ->
  process_transcription_job E retries a w
  = if (max_retries <? retries + 1)%nat then (w1, Raised e)
    else (emit (EvResend (retries + 1)) w1, RaisedRetry).
Proof.
  intros Htry. unfold process_transcription_job. rewrite Htry.
  unfold retry. by destruct (max_retries <? retries + 1)%nat.
Qed.

Variable p : Provider.
Hypothesis registered_p : PROVIDER_MAP !! provider_name a = Some p.

Lemma try_block_raises (e : exn) :
  transcribe p E (audio_bytes a) (Sys.filename a) = Raises e ->
  try_block E (PROVIDER_MAP !! provider_name a) a w
  = (emit (EvTranscribe (provider_name a)) w,
     {| Celery_worker.status := "failed"; text := None; summary := None |},
     Some e).
Proof.
  intros Ht. rewrite registered_p. unfold try_block. by rewrite Ht.
Qed.

Lemma try_block_falsy (t : option string) :
  transcribe p E (audio_bytes a) (Sys.filename a) = Returns t ->
  truthy_opt t = false ->
  try_block E (PROVIDER_MAP !! provider_name a) a w
  = (emit (EvTranscribe (provider_name a)) w,
     {| Celery_worker.status := "failed"; text := t; summary := None |},
     None).
Proof.
  intros Ht Hf. rewrite registered_p. unfold try_block. by rewrite Ht, Hf.
Qed.

Lemma try_block_text (t : string) (s : option string) :
  transcribe p E (audio_bytes a) (Sys.filename a) = Returns (Some t) ->
  t <> "" ->
  llm_summary E t = Returns s ->
  try_block E (PROVIDER_MAP !! provider_name a) a w
  = (emit (EvSummary t) (emit (EvTranscribe (provider_name a)) w),
     {| Celery_worker.status := "completed"; text := Some t; summary := s |},
     None).
Proof.
  intros Ht Hne Hs. rewrite registered_p. unfold try_block. rewrite Ht.
  assert (truthy_opt (Some t) = true) as ->.
  { simpl. unfold truthy. apply negb_true_iff. by apply String.eqb_neq. }
  simpl. by rewrite Hs.
Qed.

End Attempt.

(** A write that follows a [try] block which committed nothing itself
    finalizes the job. *)
Lemma committed_finalized (E : Env) (a : TaskArgs) (w w1 : World)
    (l : Locals) :
  observed (is_commit (Sys.job_id a)) w1
  = observed (is_commit (Sys.job_id a)) w ->
  finalized w (committed E a w1 l) a
    (Celery_worker.status l) (text l) (summary l).
Proof.
  intros Hsame. unfold finalized, committed. split.
  - rewrite observed_emit, observed_set_table, Hsame. simpl.
    rewrite String.eqb_refl. by destruct l.
  - simpl.
    change (Sys.job_id a) with (Db.id (history_row a l)).
    rewrite first_by_id_merge. eexists. split; [reflexivity|]. done.
Qed.

Lemma finalized_after_post (w w' : World) (a : TaskArgs) (st : string)
    (tx sm : option string) (url : string) (body : json_object) :
  finalized w w' a st tx sm ->
  finalized w (emit (EvPost url body) w') a st tx sm.
Proof.
  intros [Hobs Hrow]. split; [|exact Hrow].
  rewrite observed_emit. simpl. by rewrite app_nil_r.
Qed.

(** What an attempt does when [transcribe] returns a falsy value. *)
Lemma attempt_falsy (E : Env) (retries : nat) (a : TaskArgs) (w : World)
    (p : Provider) (t : option string) :
  PROVIDER_MAP !! provider_name a = Some p ->
  transcribe p E (audio_bytes a) (Sys.filename a) = Returns t ->
  truthy_opt t = false ->
  exists w',
    process_transcription_job E retries a w = (w', Returned)
    /\ finalized w w' a "failed" t None
    /\ observed is_summary w' = observed is_summary w.
Proof.
  intros Hp Ht Hf.
  pose proof (try_block_falsy E a w p Hp t Ht Hf) as Htry.
  rewrite (attempt_finalizes E retries a w _ _ Htry).
  set (l := {| Celery_worker.status := "failed"; text := t;
               summary := None |}).
  assert (finalized w (committed E a (emit (EvTranscribe (provider_name a)) w)
                         l) a "failed" t None) as Hfin.
  { apply (committed_finalized E a w _ l).
    rewrite observed_emit. simpl. by rewrite app_nil_r. }
  assert (observed is_summary
            (committed E a (emit (EvTranscribe (provider_name a)) w) l)
          = observed is_summary w) as Hsum.
  { unfold committed.
    rewrite observed_emit, observed_set_table, observed_emit. simpl.
    by rewrite !app_nil_r. }
  destruct (truthy_opt (Sys.webhook_url a)); eexists; split;
    try reflexivity; split; auto.
  - by apply finalized_after_post.
  - rewrite observed_emit. simpl. by rewrite app_nil_r.
Qed.

(** What an attempt does when [transcribe] returns non-empty text. *)
Lemma attempt_text (E : Env) (retries : nat) (a : TaskArgs) (w : World)
    (p : Provider) (t : string) :
  PROVIDER_MAP !! provider_name a = Some p ->
  transcribe p E (audio_bytes a) (Sys.filename a) = Returns (Some t) ->
  t <> "" ->
  exists w' s,
    llm_summary E t = Returns s
    /\ process_transcription_job E retries a w = (w', Returned)
    /\ finalized w w' a "completed" (Some t) s.
Proof.
  intros Hp Ht Hne.
  destruct (llm_summary_returns E t) as [s Hs].
  pose proof (try_block_text E a w p Hp t s Ht Hne Hs) as Htry.
  rewrite (attempt_finalizes E retries a w _ _ Htry).
  set (l := {| Celery_worker.status := "completed"; text := Some t;
               summary := s |}).
  set (w1 := emit (EvSummary t) (emit (EvTranscribe (provider_name a)) w)).
  assert (finalized w (committed E a w1 l) a "completed" (Some t) s) as Hfin.
  { apply (committed_finalized E a w w1 l). unfold w1.
    rewrite !observed_emit. simpl. by rewrite !app_nil_r. }
  destruct (truthy_opt (Sys.webhook_url a)); eexists; exists s;
    (split; [exact Hs|]); (split; [reflexivity|]); auto.
  by apply finalized_after_post.
Qed.

(** C4, as amended. When [transcribe] returns non-empty text the job is
    finalized as [completed] with that text and with whatever the
    summarizer produced, which is nothing when the chat call fails; when
    [transcribe] returns the absent result the job is finalized as
    [failed] with no text and no summary. *)
Theorem completed_on_nonempty_text
    (E : Env) (retries : nat) (a : TaskArgs) (w : World) (p : Provider) :
  PROVIDER_MAP !! provider_name a = Some p ->
  (forall t,
     transcribe p E (audio_bytes a) (Sys.filename a) = Returns (Some t) ->
     t <> "" ->
     exists w' s,
       llm_summary E t = Returns s
       /\ (raised (chat_completions_create E t) = true -> s = None)
       /\ process_transcription_job E retries a w = (w', Returned)
       /\ finalized w w' a "completed" (Some t) s)
  /\ (transcribe p E (audio_bytes a) (Sys.filename a) = Returns None ->
      exists w',
        process_transcription_job E retries a w = (w', Returned)
        /\ finalized w w' a "failed" None None).
Proof.
  intros Hp. split.
  - intros t Ht Hne.
    destruct (attempt_text E retries a w p t Hp Ht Hne)
      as (w' & s & Hs & Hrun & Hfin).
    exists w', s. split; [exact Hs|].
    split; [|split; [exact Hrun | exact Hfin]].
    intros Hchat. destruct (chat_completions_create E t) eqn:Hc;
      [discriminate|].
    rewrite (llm_summary_failure E t e Hc) in Hs. congruence.
  - intros Ht.
    destruct (attempt_falsy E retries a w p None Hp Ht eq_refl)
      as (w' & Hrun & Hfin & _).
    eauto.
Qed.

(** With the summarizer failing, a transcript of "hello" is stored as a
    completed job with no summary. *)
Lemma completed_on_nonempty_text_witness :
  exists w',
    process_transcription_job
      (with_chat (Raises (LibraryError "rate limit")) keyed) 0
      (job "openai" None) empty_world = (w', Returned)
    /\ finalized empty_world w' (job "openai" None) "completed"
         (Some "hello") None.
Proof.
  destruct (completed_on_nonempty_text
              (with_chat (Raises (LibraryError "rate limit")) keyed) 0
              (job "openai" None) empty_world OpenAIProvider eq_refl)
    as [Htext _].
  destruct (Htext "hello" eq_refl ltac:(discriminate))
    as (w' & s & _ & Hnone & Hrun & Hfin).
  rewrite (Hnone eq_refl) in Hfin. eauto.
Defined.

(** C4, as stated, fails: the OpenAI provider returns the text [""] for a
    silent recording, and the job is finalized as [failed], not
    [completed]. *)
Lemma empty_text_is_not_completed :
  let E := with_transcript (Returns "") keyed in
  let a := job "openai" None in
  transcribe OpenAIProvider E (audio_bytes a) (Sys.filename a)
  = Returns (Some "")
  /\ snd (process_transcription_job E 0 a empty_world) = Returned
  /\ Db.status <$> Db.first_by_id "job-1"
                     (table (fst (process_transcription_job E 0 a empty_world)))
     = Some "failed".
Proof.
  repeat split; vm_compute; reflexivity.
Qed.

(** C10. When [transcribe] returns the empty string the job is finalized
    as [failed] and the summarizer is not called; status, summary and the
    absence of a summarizer call are those of an absent result. *)
Theorem empty_text_is_failed
    (E : Env) (retries : nat) (a : TaskArgs) (w : World) (p : Provider) :
  PROVIDER_MAP !! provider_name a = Some p ->
  transcribe p E (audio_bytes a) (Sys.filename a) = Returns (Some "") ->
  (exists w',
     process_transcription_job E retries a w = (w', Returned)
     /\ finalized w w' a "failed" (Some "") None
     /\ observed is_summary w' = observed is_summary w)
  /\ (forall E0,
        transcribe p E0 (audio_bytes a) (Sys.filename a) = Returns None ->
        exists w0,
          process_transcription_job E0 retries a w = (w0, Returned)
          /\ finalized w w0 a "failed" None None
          /\ observed is_summary w0 = observed is_summary w).
Proof.
  intros Hp Ht. split.
  - exact (attempt_falsy E retries a w p (Some "") Hp Ht eq_refl).
  - intros E0 Ht0.
    exact (attempt_falsy E0 retries a w p None Hp Ht0 eq_refl).
Qed.

Lemma empty_text_is_failed_witness :
  exists w',
    process_transcription_job (with_transcript (Returns "") keyed) 0
      (job "openai" None) empty_world = (w', Returned)
    /\ finalized empty_world w' (job "openai" None) "failed" (Some "") None
    /\ observed is_summary w' = [].
Proof.
  destruct (empty_text_is_failed (with_transcript (Returns "") keyed) 0
              (job "openai" None) empty_world OpenAIProvider
              eq_refl eq_refl) as [Hempty _].
  exact Hempty.
Defined.

(** The [try] block neither writes nor notifies. *)
Lemma try_block_quiet (E : Env) (a : TaskArgs) (w w1 : World) (l : Locals)
    (r : option exn) (job : string) :
  try_block E (PROVIDER_MAP !! provider_name a) a w = (w1, l, r) ->
  table w1 = table w
  /\ observed is_post w1 = observed is_post w
  /\ observed (is_commit job) w1 = observed (is_commit job) w.
Proof.
  unfold try_block.
  destruct (PROVIDER_MAP !! provider_name a) as [p|].
  - destruct (transcribe p E _ _) as [t|e].
    + destruct (truthy_opt t).
      * destruct (llm_summary E _); intros [= <- <- <-];
          rewrite !observed_emit; simpl; by rewrite !app_nil_r.
      * intros [= <- <- <-]. rewrite !observed_emit. simpl.
        by rewrite !app_nil_r.
    + intros [= <- <- <-]. rewrite !observed_emit. simpl.
      by rewrite !app_nil_r.
  - by intros [= <- <- <-].
Qed.

(** An attempt returns exactly when its [try] block raised nothing. *)
Lemma attempt_returns_iff (E : Env) (retries : nat) (a : TaskArgs)
    (w : World) :
  snd (process_transcription_job E retries a w) = Returned
  <-> snd (try_block E (PROVIDER_MAP !! provider_name a) a w) = None.
Proof.
  destruct (try_block E (PROVIDER_MAP !! provider_name a) a w)
    as [[w1 l] [e|]] eqn:Htry.
  - rewrite (attempt_raises E retries a w w1 l e Htry). simpl.
    destruct (max_retries <? retries + 1)%nat; simpl; split; discriminate.
  - rewrite (attempt_finalizes E retries a w w1 l Htry). done.
Qed.

(** X27. An execution whose [try] block raises nothing returns, whatever
    becomes of the POST; it writes the job once and then posts once if
    the webhook URL is a non-empty string and not at all if it is absent
    or empty. The POST goes to that URL and carries [job_id], [status],
    [text] and [summary] as written. *)
Theorem one_post_per_finalizing_attempt
    (E : Env) (retries : nat) (a : TaskArgs) (w w1 : World) (l : Locals) :
  try_block E (PROVIDER_MAP !! provider_name a) a w = (w1, l, None) ->
  exists w',
    process_transcription_job E retries a w = (w', Returned)
    /\ observed (is_commit (Sys.job_id a)) w'
       = observed (is_commit (Sys.job_id a)) w
         ++ [EvCommit (history_row a l)]
    /\ observed is_post w'
       = observed is_post w
         ++ (if truthy_opt (Sys.webhook_url a)
             then [EvPost (default "" (Sys.webhook_url a))
                     [("job_id", Some (Sys.job_id a));
                      ("status", Some (Celery_worker.status l));
                      ("text", text l); ("summary", summary l)]]
             else [])
    /\ trace w'
       = trace w1
         ++ EvCommit (history_row a l)
            :: (if truthy_opt (Sys.webhook_url a)
                then [EvPost (default "" (Sys.webhook_url a)) (payload a l)]
                else []).
Proof.
  intros Htry.
  destruct (try_block_quiet E a w w1 l None (Sys.job_id a) Htry)
    as (_ & Hpost & Hcommit).
  rewrite (attempt_finalizes E retries a w w1 l Htry).
  destruct (truthy_opt (Sys.webhook_url a)); eexists;
    (split; [reflexivity|]); unfold committed;
    rewrite ?observed_emit, ?observed_set_table, ?observed_emit; simpl;
    rewrite ?String.eqb_refl, ?app_nil_r, Hpost, Hcommit;
    repeat split; try reflexivity.
  by rewrite <- app_assoc.
Qed.

(** The POST times out, and the attempt still returns after one POST. *)
Lemma one_post_per_finalizing_attempt_witness :
  exists w',
    process_transcription_job
      (with_post (Raises (LibraryError "timeout")) quiet) 0
      (job "google" (Some "http://client/hook")) empty_world
    = (w', Returned)
    /\ observed is_post w'
       = [EvPost "http://client/hook"
            [("job_id", Some "job-1"); ("status", Some "completed");
             ("text", Some "Google STT (demo): This is a fake transcript.");
             ("summary", None)]].
Proof.
  destruct (one_post_per_finalizing_attempt
              (with_post (Raises (LibraryError "timeout")) quiet) 0
              (job "google" (Some "http://client/hook")) empty_world
              _ _ eq_refl)
    as (w' & Hrun & _ & Hpost & _).
  exists w'. split; [exact Hrun | exact Hpost].
Defined.

(** C5. A job submitted with the webhook URL [http://client/hook] whose
    every execution raises ([OPENAI_API_KEY] set, the construction of the
    OpenAI client raising) is executed four times and ends in failure.
    Its last execution leaves through [self.retry] like the others, so
    the notifier is never invoked: no POST is sent for the job. *)
Theorem exhausted_job_is_never_notified :
  let down := with_OpenAI (Raises (LibraryError "invalid proxy URL")) keyed in
  let a := job "openai" (Some "http://client/hook") in
  let w' := fst (deliver (fun _ => down) a empty_world) in
  Sys.webhook_url a = Some "http://client/hook"
  /\ snd (deliver (fun _ => down) a empty_world)
     = FAILURE (LibraryError "invalid proxy URL")
  /\ observed is_transcribe w' = replicate 4 (EvTranscribe "openai")
  /\ observed is_post w' = [].
Proof.
  repeat split; vm_compute; reflexivity.
Qed.

(** The last permitted execution is never re-sent, so [deliver] never runs
    out of fuel. *)
Lemma no_retry_past_limit (E : Env) (retries : nat) (a : TaskArgs)
    (w : World) :
  (max_retries <= retries)%nat ->
  snd (process_transcription_job E retries a w) <> RaisedRetry.
Proof.
  intros Hlim.
  destruct (try_block E (PROVIDER_MAP !! provider_name a) a w)
    as [[w1 l] [e|]] eqn:Htry.
  - rewrite (attempt_raises E retries a w w1 l e Htry).
    assert ((max_retries <? retries + 1)%nat = true) as ->
      by (apply Nat.ltb_lt; lia).
    discriminate.
  - rewrite (attempt_finalizes E retries a w w1 l Htry). discriminate.
Qed.

Lemma deliver_terminates (E : nat -> Env) (a : TaskArgs) (w : World) :
  snd (deliver E a w) <> PENDING.
Proof.
  unfold deliver, max_retries. simpl.
  destruct (process_transcription_job (E 0%nat) 0 a w) as [w0 [| |]];
    try discriminate.
  destruct (process_transcription_job (E 1%nat) 1 a w0) as [w1 [| |]];
    try discriminate.
  destruct (process_transcription_job (E 2%nat) 2 a w1) as [w2 [| |]];
    try discriminate.
  pose proof (no_retry_past_limit (E 3%nat) 3 a w2 (Nat.le_refl _)) as Hlast.
  destruct (process_transcription_job (E 3%nat) 3 a w2) as [w3 [| |]];
    try discriminate.
  by contradict Hlast.
Qed.

Lemma attempt_when_transcribe_raises (E : Env) (retries : nat)
    (a : TaskArgs) (w : World) (p : Provider) (e : exn) :
  PROVIDER_MAP !! provider_name a = Some p ->
  transcribe p E (audio_bytes a) (Sys.filename a) = Raises e ->
  process_transcription_job E retries a w
  = if (max_retries <? retries + 1)%nat
    then (emit (EvTranscribe (provider_name a)) w, Raised e)
    else (emit (EvResend (retries + 1))
            (emit (EvTranscribe (provider_name a)) w), RaisedRetry).
Proof.
  intros Hp Ht.
  exact (attempt_raises E retries a w _ _ e
           (try_block_raises E a w p Hp e Ht)).
Qed.

(** A job whose [transcribe] raises on every execution is executed four
    times and then fails; no execution writes to the Job Store, so a
    reader finds what was there before. *)
Lemma always_raising_never_finalizes (E : nat -> Env) (a : TaskArgs)
    (w : World) (p : Provider) :
  PROVIDER_MAP !! provider_name a = Some p ->
  (forall n, raised (transcribe p (E n) (audio_bytes a) (Sys.filename a))
             = true) ->
  exists w' e,
    deliver E a w = (w', FAILURE e)
    /\ table w' = table w
    /\ observed (is_commit (Sys.job_id a)) w'
       = observed (is_commit (Sys.job_id a)) w
    /\ observed is_post w' = observed is_post w
    /\ observed is_transcribe w'
       = observed is_transcribe w
         ++ replicate 4 (EvTranscribe (provider_name a)).
Proof.
  intros Hp Hall.
  assert (forall n, exists e,
            transcribe p (E n) (audio_bytes a) (Sys.filename a) = Raises e)
    as Hraise.
  { intros n. specialize (Hall n).
    destruct (transcribe p (E n) _ _); [discriminate | eauto]. }
  destruct (Hraise 0%nat) as [e0 H0]. destruct (Hraise 1%nat) as [e1 H1].
  destruct (Hraise 2%nat) as [e2 H2]. destruct (Hraise 3%nat) as [e3 H3].
  unfold deliver, max_retries. simpl run_task.
  rewrite (attempt_when_transcribe_raises (E 0%nat) 0 a w p e0 Hp H0).
  simpl.
  rewrite (attempt_when_transcribe_raises (E 1%nat) 1 a _ p e1 Hp H1).
  simpl.
  rewrite (attempt_when_transcribe_raises (E 2%nat) 2 a _ p e2 Hp H2).
  simpl.
  rewrite (attempt_when_transcribe_raises (E 3%nat) 3 a _ p e3 Hp H3).
  simpl.
  eexists. exists e3. split; [reflexivity|].
  rewrite !observed_emit. simpl. rewrite !app_nil_r, <- !app_assoc.
  repeat split; reflexivity.
Qed.

(** C1. With [OPENAI_API_KEY] set and the construction of the OpenAI
    client raising on every execution, the job is executed four times
    (three retries) and ends in failure without a single write: the Job
    Store stays empty and a reader of the job id gets 404. *)
Theorem retry_exhaustion_writes_nothing :
  let down := with_OpenAI (Raises (LibraryError "invalid proxy URL")) keyed in
  let a := job "openai" (Some "http://client/hook") in
  let w' := fst (deliver (fun _ => down) a empty_world) in
  snd (deliver (fun _ => down) a empty_world)
  = FAILURE (LibraryError "invalid proxy URL")
  /\ observed is_transcribe w' = replicate 4 (EvTranscribe "openai")
  /\ observed (is_commit "job-1") w' = []
  /\ table w' = []
  /\ job_status "job-1" w' = Raises (HTTPException 404 "Job not found.").
Proof.
  repeat split; vm_compute; reflexivity.
Qed.

(* ===================================================================== *)
(** ** Further properties of the worker                                    *)
(* ===================================================================== *)

(** The three ways one execution can end, with the world it leaves. *)
Lemma attempt_cases (E : Env) (retries : nat) (a : TaskArgs) (w : World) :
  (exists w1 l,
     try_block E (PROVIDER_MAP !! provider_name a) a w = (w1, l, None)
     /\ process_transcription_job E retries a w
        = (if truthy_opt (Sys.webhook_url a)
           then emit (EvPost (default "" (Sys.webhook_url a)) (payload a l))
                  (committed E a w1 l)
           else committed E a w1 l, Returned))
  \/ (exists w1 l e,
        try_block E (PROVIDER_MAP !! provider_name a) a w = (w1, l, Some e)
        /\ (retries < max_retries)%nat
        /\ process_transcription_job E retries a w
           = (emit (EvResend (retries + 1)) w1, RaisedRetry))
  \/ (exists w1 l e,
        try_block E (PROVIDER_MAP !! provider_name a) a w = (w1, l, Some e)
        /\ (max_retries <= retries)%nat
        /\ process_transcription_job E retries a w = (w1, Raised e)).
Proof.
  destruct (try_block E (PROVIDER_MAP !! provider_name a) a w)
    as [[w1 l] [e|]] eqn:Htry.
  - right. rewrite (attempt_raises E retries a w w1 l e Htry).
    destruct (max_retries <? retries + 1)%nat eqn:Hlim.
    + right. exists w1, l, e. apply Nat.ltb_lt in Hlim.
      repeat split; auto; lia.
    + left. exists w1, l, e. apply Nat.ltb_ge in Hlim.
      repeat split; auto; lia.
  - left. exists w1, l. split; [reflexivity|].
    exact (attempt_finalizes E retries a w w1 l Htry).
Qed.

(** The [try] block calls the provider at most once. *)
Lemma try_block_transcribes (E : Env) (a : TaskArgs) (w w1 : World)
    (l : Locals) (r : option exn) :
  try_block E (PROVIDER_MAP !! provider_name a) a w = (w1, l, r) ->
  observed is_transcribe w1
  = observed is_transcribe w
    ++ match PROVIDER_MAP !! provider_name a with
       | Some _ => [EvTranscribe (provider_name a)]
       | None => []
       end.
Proof.
  unfold try_block.
  destruct (PROVIDER_MAP !! provider_name a) as [p|].
  - destruct (transcribe p E _ _) as [t|e].
    + destruct (truthy_opt t).
      * destruct (llm_summary E _); intros [= <- <- <-];
          rewrite !observed_emit; simpl; by rewrite ?app_nil_r.
      * intros [= <- <- <-]. by rewrite !observed_emit.
    + intros [= <- <- <-]. by rewrite !observed_emit.
  - intros [= <- <- <-]. by rewrite app_nil_r.
Qed.

(** What the [try] block leaves in the locals when it raises nothing. *)
Lemma try_block_locals (E : Env) (a : TaskArgs) (w w1 : World)
    (l : Locals) :
  try_block E (PROVIDER_MAP !! provider_name a) a w = (w1, l, None) ->
  (Celery_worker.status l = "completed" /\ truthy_opt (text l) = true)
  \/ (Celery_worker.status l = "failed" /\ truthy_opt (text l) = false
      /\ summary l = None).
Proof.
  unfold try_block.
  destruct (PROVIDER_MAP !! provider_name a) as [p|]; [|discriminate].
  destruct (transcribe p E _ _) as [t|e]; [|discriminate].
  destruct (truthy_opt t) eqn:Ht.
  - destruct (llm_summary E _); [|discriminate].
    intros [= <- <-]. left. simpl. auto.
  - intros [= <- <-]. right. simpl. auto.
Qed.

Lemma observed_committed (p : event -> bool) (E : Env) (a : TaskArgs)
    (w1 : World) (l : Locals) :
  observed p (committed E a w1 l)
  = observed p w1
    ++ (if p (EvCommit (history_row a l))
        then [EvCommit (history_row a l)] else []).
Proof.
  unfold committed. by rewrite observed_emit, observed_set_table.
Qed.

(** What one execution does to the Job Store and to the trace. *)
Lemma attempt_effects (E : Env) (retries : nat) (a : TaskArgs)
    (w w' : World) (ex : task_exit) :
  process_transcription_job E retries a w = (w', ex) ->
  (List.length (observed is_transcribe w')
   <= S (List.length (observed is_transcribe w)))%nat
  /\ match ex with
     | Returned =>
         exists l,
           table w' = Db.merge (history_row a l) (utcnow E) (table w)
           /\ observed (is_commit (Sys.job_id a)) w'
              = observed (is_commit (Sys.job_id a)) w
                ++ [EvCommit (history_row a l)]
           /\ ((Celery_worker.status l = "completed"
                /\ truthy_opt (text l) = true)
               \/ (Celery_worker.status l = "failed"
                   /\ truthy_opt (text l) = false /\ summary l = None))
     | _ =>
         table w' = table w
         /\ observed (is_commit (Sys.job_id a)) w'
            = observed (is_commit (Sys.job_id a)) w
         /\ observed is_post w' = observed is_post w
     end.
Proof.
  intros Hrun.
  destruct (attempt_cases E retries a w)
    as [(w1 & l & Htry & Heq)
       |[(w1 & l & e & Htry & Hlim & Heq)
        |(w1 & l & e & Htry & Hlim & Heq)]];
    rewrite Heq in Hrun; injection Hrun as <- <-;
    pose proof (try_block_transcribes E a w w1 l _ Htry) as Htr;
    destruct (try_block_quiet E a w w1 l _ (Sys.job_id a) Htry)
      as (Htab & Hpost & Hcommit).
  - split.
    + destruct (truthy_opt (Sys.webhook_url a));
        rewrite ?observed_emit, observed_committed, Htr; simpl;
        rewrite ?app_nil_r, length_app;
        destruct (PROVIDER_MAP !! provider_name a); simpl; lia.
    + exists l. split; [|split].
      * destruct (truthy_opt (Sys.webhook_url a)); simpl; by rewrite Htab.
      * destruct (truthy_opt (Sys.webhook_url a));
          rewrite ?observed_emit, observed_committed, Hcommit; simpl;
          rewrite String.eqb_refl, ?app_nil_r; reflexivity.
      * exact (try_block_locals E a w w1 l Htry).
  - split.
    + rewrite observed_emit, Htr. simpl. rewrite app_nil_r, length_app.
      destruct (PROVIDER_MAP !! provider_name a); simpl; lia.
    + rewrite !observed_emit. simpl. rewrite !app_nil_r. auto.
  - split; [|auto].
    rewrite Htr, length_app.
    destruct (PROVIDER_MAP !! provider_name a); simpl; lia.
Qed.

(** What a run of executions does, whatever the outside world does. *)
Lemma run_task_effects (E : nat -> Env) (a : TaskArgs) (fuel : nat) :
  forall (retries : nat) (w w' : World) (st : task_state),
    run_task fuel E retries a w = (w', st) ->
    (List.length (observed is_transcribe w')
     <= List.length (observed is_transcribe w) + fuel)%nat
    /\ match st with
       | SUCCESS =>
           exists l n,
             table w' = Db.merge (history_row a l) (utcnow (E n)) (table w)
             /\ observed (is_commit (Sys.job_id a)) w'
                = observed (is_commit (Sys.job_id a)) w
                  ++ [EvCommit (history_row a l)]
             /\ ((Celery_worker.status l = "completed"
                  /\ truthy_opt (text l) = true)
                 \/ (Celery_worker.status l = "failed"
                     /\ truthy_opt (text l) = false /\ summary l = None))
       | _ =>
           table w' = table w
           /\ observed (is_commit (Sys.job_id a)) w'
              = observed (is_commit (Sys.job_id a)) w
           /\ observed is_post w' = observed is_post w
       end.
Proof.
  induction fuel as [|fuel IH]; intros retries w w' st; simpl.
  - intros [= <- <-]. split; [lia | auto].
  - destruct (process_transcription_job (E retries) retries a w)
      as [w1 ex] eqn:Hstep.
    destruct (attempt_effects (E retries) retries a w w1 ex Hstep)
      as [Hcount Hex].
    destruct ex.
    + intros [= <- <-]. split; [lia|].
      destruct Hex as (l & Htab & Hcommit & Hl). exists l, retries. auto.
    + intros Hrest. destruct (IH _ _ _ _ Hrest) as [Hcount' Hst].
      destruct Hex as (Htab & Hcommit & Hpost).
      split; [lia|].
      destruct st; rewrite <- ?Htab, <- ?Hcommit, <- ?Hpost; exact Hst.
    + intros [= <- <-]. split; [lia | exact Hex].
Qed.

(** X1. A job whose [transcribe] raises on its first [k] executions, for
    [k] up to the three retries, and then returns non-empty text, succeeds:
    the provider is called [k + 1] times, and the job is written once, as
    [completed] with that text. *)
Theorem retry_until_success
    (E : nat -> Env) (a : TaskArgs) (p : Provider) (k : nat) (t : string)
    (w : World) :
  PROVIDER_MAP !! provider_name a = Some p ->
  (k <= max_retries)%nat ->
  (forall n, (n < k)%nat ->
     raised (transcribe p (E n) (audio_bytes a) (Sys.filename a)) = true) ->
  transcribe p (E k) (audio_bytes a) (Sys.filename a) = Returns (Some t) ->
  t <> "" ->
  exists w' s,
    deliver E a w = (w', SUCCESS)
    /\ llm_summary (E k) t = Returns s
    /\ finalized w w' a "completed" (Some t) s
    /\ observed is_transcribe w'
       = observed is_transcribe w
         ++ replicate (S k) (EvTranscribe (provider_name a)).
Proof.
  intros Hp Hk Hraise Hok Hne. unfold deliver.
  assert (forall j fuel retries w0,
            (j < fuel)%nat -> (retries + j = k)%nat ->
            exists w' s,
              run_task fuel E retries a w0 = (w', SUCCESS)
              /\ llm_summary (E k) t = Returns s
              /\ finalized w0 w' a "completed" (Some t) s
              /\ observed is_transcribe w'
                 = observed is_transcribe w0
                   ++ replicate (S j) (EvTranscribe (provider_name a)))
    as Hgen.
  { induction j as [|j IH]; intros fuel retries w0 Hfuel Hsum;
      (destruct fuel as [|fuel]; [lia|]); simpl run_task.
    - assert (retries = k) as -> by lia.
      destruct (llm_summary_returns (E k) t) as [s Hs].
      pose proof (try_block_text (E k) a w0 p Hp t s Hok Hne Hs) as Htry.
      rewrite (attempt_finalizes (E k) k a w0 _ _ Htry).
      pose proof (try_block_transcribes (E k) a w0 _ _ _ Htry) as Htr.
      rewrite Hp in Htr.
      destruct (attempt_text (E k) k a w0 p t Hp Hok Hne)
        as (w' & s' & Hs' & Hrun & Hfin).
      rewrite (attempt_finalizes (E k) k a w0 _ _ Htry) in Hrun.
      assert (s' = s) as -> by congruence.
      destruct (truthy_opt (Sys.webhook_url a)); injection Hrun as <-;
        eexists; exists s; (split; [reflexivity|]); (split; [exact Hs|]);
        (split; [exact Hfin|]);
        rewrite ?observed_emit, observed_committed, Htr; simpl;
        by rewrite ?app_nil_r.
    - assert (retries < k)%nat as Hlt by lia.
      specialize (Hraise retries Hlt).
      destruct (transcribe p (E retries) (audio_bytes a) (Sys.filename a))
        as [|e] eqn:Ht; [discriminate|].
      rewrite (attempt_when_transcribe_raises (E retries) retries a w0 p e
                 Hp Ht).
      assert ((max_retries <? retries + 1)%nat = false) as ->
        by (apply Nat.ltb_ge; lia).
      destruct (IH fuel (S retries)
                  (emit (EvResend (retries + 1))
                     (emit (EvTranscribe (provider_name a)) w0)))
        as (w' & s & Hrun & Hs & Hfin & Htr); [lia | lia |].
      exists w', s. split; [exact Hrun|]. split; [exact Hs|]. split.
      + destruct Hfin as [Hobs Hrow]. split; [|exact Hrow].
        rewrite Hobs, !observed_emit. simpl. by rewrite !app_nil_r.
      + rewrite Htr, !observed_emit. simpl.
        by rewrite app_nil_r, <- app_assoc. }
  apply (Hgen k (S max_retries) 0%nat w); lia.
Qed.

(** The provider fails twice and then answers "hello": three calls, one
    completed row. *)
Lemma retry_until_success_witness :
  let flaky := fun n : nat =>
    if (n <? 2)%nat
    then with_OpenAI (Raises (LibraryError "connection reset")) keyed
    else keyed in
  exists w' s,
    deliver flaky (job "openai" None) empty_world = (w', SUCCESS)
    /\ finalized empty_world w' (job "openai" None) "completed"
         (Some "hello") s
    /\ observed is_transcribe w' = replicate 3 (EvTranscribe "openai").
Proof.
  intros flaky.
  destruct (retry_until_success flaky (job "openai" None) OpenAIProvider 2
              "hello" empty_world eq_refl)
    as (w' & s & Hrun & _ & Hfin & Htr).
  - unfold max_retries. lia.
  - intros [|[|n]] Hn; try reflexivity. lia.
  - reflexivity.
  - discriminate.
  - exists w', s. auto.
Defined.

(** X2. A delivery writes the job exactly once when it ends in success and
    not at all when it ends in failure, in which case it posts nothing
    either and the Job Store is as before. *)
Theorem one_write_iff_success (E : nat -> Env) (a : TaskArgs) (w : World) :
  match snd (deliver E a w) with
  | SUCCESS =>
      exists hist,
        observed (is_commit (Sys.job_id a)) (fst (deliver E a w))
        = observed (is_commit (Sys.job_id a)) w ++ [EvCommit hist]
  | FAILURE _ =>
      table (fst (deliver E a w)) = table w
      /\ observed (is_commit (Sys.job_id a)) (fst (deliver E a w))
         = observed (is_commit (Sys.job_id a)) w
      /\ observed is_post (fst (deliver E a w)) = observed is_post w
  | PENDING => False
  end.
Proof.
  pose proof (deliver_terminates E a w) as Hterm.
  destruct (deliver E a w) as [w' st] eqn:Hrun. unfold deliver in Hrun.
  destruct (run_task_effects E a _ _ _ _ _ Hrun) as [_ Hst]. simpl in *.
  destruct st; [| exact Hst | congruence].
  destruct Hst as (l & n & _ & Hcommit & _). eauto.
Qed.

(** X3. A delivery always ends, in success or in failure, and calls the
    provider at most four times (the first execution and three retries),
    whatever the provider, the summarizer and the webhook do. *)
Theorem at_most_four_executions (E : nat -> Env) (a : TaskArgs) (w : World) :
  snd (deliver E a w) <> PENDING
  /\ (List.length (observed is_transcribe (fst (deliver E a w)))
      <= List.length (observed is_transcribe w) + 4)%nat.
Proof.
  split; [apply deliver_terminates|].
  destruct (deliver E a w) as [w' st] eqn:Hrun. unfold deliver in Hrun.
  destruct (run_task_effects E a _ _ _ _ _ Hrun) as [Hcount _].
  exact Hcount.
Qed.

(** X4. A delivery leaves the rows of every other job as they were and
    keeps the primary key of the table. *)
Theorem delivery_touches_own_row_only
    (E : nat -> Env) (a : TaskArgs) (w : World) :
  (forall other, other <> Sys.job_id a ->
     Db.first_by_id other (table (fst (deliver E a w)))
     = Db.first_by_id other (table w))
  /\ (Db.primary_key (table w) ->
      Db.primary_key (table (fst (deliver E a w)))).
Proof.
  destruct (deliver E a w) as [w' st] eqn:Hrun. unfold deliver in Hrun.
  destruct (run_task_effects E a _ _ _ _ _ Hrun) as [_ Hst]. simpl.
  destruct st.
  - destruct Hst as (l & n & Htab & _). rewrite Htab. split.
    + intros other Hne. by apply first_by_id_merge_other.
    + apply merge_keeps_primary_key.
  - destruct Hst as (-> & _). auto.
  - destruct Hst as (-> & _). auto.
Qed.

(** X5. The row a successful delivery leaves for a reader carries the
    job's id, file name, provider, webhook URL and user id, and its status
    follows its text: [completed] with non-empty text, or [failed] with
    empty or absent text and no summary. *)
Theorem stored_status_follows_text
    (E : nat -> Env) (a : TaskArgs) (w : World) :
  snd (deliver E a w) = SUCCESS ->
  exists row,
    Db.first_by_id (Sys.job_id a) (table (fst (deliver E a w))) = Some row
    /\ Db.id row = Sys.job_id a
    /\ Db.filename row = Sys.filename a
    /\ Db.provider row = provider_name a
    /\ Db.webhook_url row = Sys.webhook_url a
    /\ Db.user_id row = Sys.user_id a
    /\ ((Db.status row = "completed" /\ truthy_opt (Db.text row) = true)
        \/ (Db.status row = "failed" /\ truthy_opt (Db.text row) = false
            /\ Db.summary row = None)).
Proof.
  destruct (deliver E a w) as [w' st] eqn:Hrun. unfold deliver in Hrun.
  destruct (run_task_effects E a _ _ _ _ _ Hrun) as [_ Hst]. simpl.
  intros ->. destruct Hst as (l & n & Htab & _ & Hl). rewrite Htab.
  change (Sys.job_id a) with (Db.id (history_row a l)) at 1.
  rewrite first_by_id_merge. eexists. split; [reflexivity|].
  simpl. repeat split; auto.
Qed.

Lemma stored_status_follows_text_witness :
  exists row,
    Db.first_by_id "job-1"
      (table (fst (deliver (fun _ => quiet) (job "elevenlabs" None)
                     empty_world)))
    = Some row
    /\ Db.status row = "failed" /\ Db.text row = None.
Proof.
  destruct (stored_status_follows_text (fun _ => quiet)
              (job "elevenlabs" None) empty_world eq_refl)
    as (row & Hrow & _ & _ & _ & _ & _ & Hst).
  exists row. split; [exact Hrow|].
  vm_compute in Hrow. injection Hrow as <-. split; reflexivity.
Defined.

(* ===================================================================== *)
(** ** Further properties of the providers and the summarizer              *)
(* ===================================================================== *)

Lemma truthy_false_iff (s : string) : truthy s = false <-> s = "".
Proof.
  unfold truthy. rewrite negb_false_iff. apply String.eqb_eq.
Qed.

Lemma truthy_true_iff (s : string) : truthy s = true <-> s <> "".
Proof.
  unfold truthy. rewrite negb_true_iff. apply String.eqb_neq.
Qed.

(** X6. Without credentials the Google and the AWS provider answer with
    their demo transcript, so a job for either is finalized as
    [completed] with that transcript as its text, whatever the audio. *)
Theorem demo_transcript_completes_job
    (E : Env) (retries : nat) (a : TaskArgs) (w : World) :
  (provider_name a = "google" ->
   getenv E "GOOGLE_API_KEY" "" = "" ->
   exists w' s,
     process_transcription_job E retries a w = (w', Returned)
     /\ finalized w w' a "completed"
          (Some "Google STT (demo): This is a fake transcript.") s)
  /\ (provider_name a = "aws" ->
      getenv E "AWS_ACCESS_KEY_ID" "" = ""
      \/ getenv E "AWS_SECRET_ACCESS_KEY" "" = "" ->
      exists w' s,
        process_transcription_job E retries a w = (w', Returned)
        /\ finalized w w' a "completed"
             (Some "AWS Transcribe (demo): This is a fake transcript.") s).
Proof.
  split.
  - intros Hname Hkey.
    assert (PROVIDER_MAP !! provider_name a = Some GoogleProvider) as Hp
      by (rewrite Hname; reflexivity).
    destruct (attempt_text E retries a w GoogleProvider
                "Google STT (demo): This is a fake transcript." Hp)
      as (w' & s & _ & Hrun & Hfin); [|discriminate|eauto].
    simpl. by rewrite Hkey.
  - intros Hname Hkey.
    assert (PROVIDER_MAP !! provider_name a = Some AWSProvider) as Hp
      by (rewrite Hname; reflexivity).
    destruct (attempt_text E retries a w AWSProvider
                "AWS Transcribe (demo): This is a fake transcript." Hp)
      as (w' & s & _ & Hrun & Hfin); [|discriminate|eauto].
    simpl. destruct Hkey as [-> | ->]; simpl; [reflexivity|].
    by rewrite orb_true_r.
Qed.

Lemma demo_transcript_completes_job_witness :
  exists w' s,
    process_transcription_job quiet 0 (job "aws" None) empty_world
    = (w', Returned)
    /\ finalized empty_world w' (job "aws" None) "completed"
         (Some "AWS Transcribe (demo): This is a fake transcript.") s.
Proof.
  destruct (demo_transcript_completes_job quiet 0 (job "aws" None)
              empty_world) as [_ Haws].
  apply Haws; [reflexivity | left; reflexivity].
Defined.

(** X7. Without its API key the OpenAI or the ElevenLabs provider returns
    the absent result without calling its service, so the job is finalized
    as [failed] with no text and no summary, and the summarizer is not
    called. *)
Theorem missing_key_fails_job
    (E : Env) (retries : nat) (a : TaskArgs) (w : World) :
  (provider_name a = "openai" /\ getenv E "OPENAI_API_KEY" "" = "")
  \/ (provider_name a = "elevenlabs"
      /\ getenv E "ELEVENLABS_API_KEY" "" = "") ->
  exists w',
    process_transcription_job E retries a w = (w', Returned)
    /\ finalized w w' a "failed" None None
    /\ observed is_summary w' = observed is_summary w.
Proof.
  intros [[Hname Hkey] | [Hname Hkey]].
  - apply (attempt_falsy E retries a w OpenAIProvider None);
      [rewrite Hname; reflexivity | | reflexivity].
    simpl. by rewrite Hkey.
  - apply (attempt_falsy E retries a w ElevenLabsProvider None);
      [rewrite Hname; reflexivity | | reflexivity].
    simpl. by rewrite Hkey.
Qed.

Lemma missing_key_fails_job_witness :
  exists w',
    process_transcription_job quiet 0 (job "openai" None) empty_world
    = (w', Returned)
    /\ finalized empty_world w' (job "openai" None) "failed" None None
    /\ observed is_summary w' = [].
Proof.
  apply (missing_key_fails_job quiet 0 (job "openai" None) empty_world).
  left. split; reflexivity.
Defined.

(** X8. The only exception a registered provider lets out of [transcribe]
    is the one raised by the construction of the OpenAI client, which
    happens only with [OPENAI_API_KEY] set. *)
Theorem only_client_construction_escapes
    (E : Env) (k : string) (p : Provider) (b : list byte) (fn : string)
    (e : exn) :
  PROVIDER_MAP !! k = Some p ->
  transcribe p E b fn = Raises e ->
  k = "openai"
  /\ getenv E "OPENAI_API_KEY" "" <> ""
  /\ OpenAI E (getenv E "OPENAI_API_KEY" "") = Raises e.
Proof.
  intros Hp Hraise.
  destruct (decide (k = "openai")) as [->|Hne].
  - assert (p = OpenAIProvider) as ->.
    { change (PROVIDER_MAP !! "openai") with (Some OpenAIProvider) in Hp.
      congruence. }
    apply OpenAI_raises_iff in Hraise as [Hkey Hctor].
    split; [reflexivity|]. split; [by apply truthy_true_iff | exact Hctor].
  - pose proof (others_never_raise E k p b fn Hp Hne) as Hno.
    rewrite Hraise in Hno. discriminate.
Qed.

Lemma only_client_construction_escapes_witness :
  let down := with_OpenAI (Raises (LibraryError "invalid proxy URL")) keyed in
  "openai" = "openai"
  /\ getenv down "OPENAI_API_KEY" "" <> ""
  /\ OpenAI down (getenv down "OPENAI_API_KEY" "")
     = Raises (LibraryError "invalid proxy URL").
Proof.
  intros down.
  apply (only_client_construction_escapes
           (with_OpenAI (Raises (LibraryError "invalid proxy URL")) keyed)
           "openai" OpenAIProvider (zeros 100) "talk.mp3"
           (LibraryError "invalid proxy URL")); reflexivity.
Defined.

(** X9. The summarizer never raises, and it returns a summary exactly when
    [OPENAI_API_KEY] is set, the text is not empty, the client is built,
    and the chat call returns content; the summary is that content with
    surrounding whitespace removed. In every other case it returns the
    absent result. *)
Theorem summary_exactly_from_chat (E : Env) (text : string) :
  raised (llm_summary E text) = false
  /\ forall s,
       llm_summary E text = Returns (Some s)
       <-> (getenv E "OPENAI_API_KEY" "" <> ""
            /\ text <> ""
            /\ OpenAI E (getenv E "OPENAI_API_KEY" "") = Returns tt
            /\ exists c,
                 chat_completions_create E text = Returns (Some c)
                 /\ s = strip c).
Proof.
  split; [apply llm_summary_never_raises|].
  intros s. unfold llm_summary.
  destruct (truthy (getenv E "OPENAI_API_KEY" "")) eqn:Hkey; simpl.
  - apply truthy_true_iff in Hkey.
    destruct (truthy text) eqn:Htext; simpl.
    + apply truthy_true_iff in Htext.
      destruct (OpenAI E _) as [[]|e1]; simpl.
      * destruct (chat_completions_create E text) as [[c|]|e2]; simpl.
        -- split.
           ++ intros [= <-]. eauto 10.
           ++ intros (_ & _ & _ & c' & [= <-] & ->). reflexivity.
        -- split; [discriminate|].
           intros (_ & _ & _ & c' & Hc & _). discriminate.
        -- split; [discriminate|].
           intros (_ & _ & _ & c' & Hc & _). discriminate.
      * split; [discriminate|]. intros (_ & _ & Hc & _). discriminate.
    + apply truthy_false_iff in Htext.
      split; [discriminate|]. intros (_ & Hne & _). contradiction.
  - apply truthy_false_iff in Hkey.
    split; [discriminate|]. intros (Hne & _). contradiction.
Qed.

(* ===================================================================== *)
(** ** Further properties of the Job Store                                 *)
(* ===================================================================== *)

(** X10. Writing the same row twice is the same as writing it once, at
    whatever times the two writes happen. *)
Theorem merge_idempotent
    (h : Db.TranscriptionHistory) (now1 now2 : Z)
    (t : list Db.TranscriptionHistory) :
  Db.merge h now2 (Db.merge h now1 t) = Db.merge h now1 t.
Proof.
  induction t as [|row rest IH]; simpl.
  - by rewrite String.eqb_refl.
  - destruct (String.eqb (Db.id row) (Db.id h)) eqn:Heq; simpl.
    + by rewrite String.eqb_refl.
    + by rewrite Heq, IH.
Qed.

Lemma rows_with_id_merge_other (h : Db.TranscriptionHistory) (now : Z)
    (job : string) (t : list Db.TranscriptionHistory) :
  job <> Db.id h ->
  Db.rows_with_id job (Db.merge h now t) = Db.rows_with_id job t.
Proof.
  intros Hne. unfold Db.rows_with_id.
  assert (String.eqb (Db.id h) job = false) as Hh
    by (apply String.eqb_neq; congruence).
  induction t as [|row rest IH]; simpl.
  - by rewrite Hh.
  - destruct (String.eqb (Db.id row) (Db.id h)) eqn:Heq; simpl.
    + apply String.eqb_eq in Heq. rewrite Hh, Heq, Hh. reflexivity.
    + by rewrite IH.
Qed.

(** X11. A write changes nothing for any other job id, and the table
    grows by one row when the id is new and keeps its size when the id is
    already stored. *)
Theorem merge_touches_one_id
    (h : Db.TranscriptionHistory) (now : Z)
    (t : list Db.TranscriptionHistory) :
  (forall job, job <> Db.id h ->
     Db.first_by_id job (Db.merge h now t) = Db.first_by_id job t
     /\ Db.rows_with_id job (Db.merge h now t) = Db.rows_with_id job t)
  /\ List.length (Db.merge h now t)
     = match Db.first_by_id (Db.id h) t with
       | Some _ => List.length t
       | None => S (List.length t)
       end.
Proof.
  split.
  - intros job Hne. split.
    + by apply first_by_id_merge_other.
    + by apply rows_with_id_merge_other.
  - induction t as [|row rest IH]; simpl; [reflexivity|].
    destruct (String.eqb (Db.id row) (Db.id h)); simpl; [reflexivity|].
    rewrite IH. by destruct (Db.first_by_id (Db.id h) rest).
Qed.

Lemma first_by_id_none (job : string) (t : list Db.TranscriptionHistory) :
  Db.first_by_id job t = None <-> job ∉ map Db.id t.
Proof.
  induction t as [|row rest IH]; simpl.
  - split; [intros _; apply not_elem_of_nil | reflexivity].
  - rewrite not_elem_of_cons.
    destruct (String.eqb (Db.id row) job) eqn:Heq.
    + apply String.eqb_eq in Heq. split; [discriminate|].
      intros [Hne _]. congruence.
    + apply String.eqb_neq in Heq. rewrite IH.
      split; [intros ?; split; congruence | intros [_ ?]; assumption].
Qed.

Lemma first_by_id_some (job : string) (t : list Db.TranscriptionHistory)
    (row : Db.TranscriptionHistory) :
  Db.first_by_id job t = Some row -> Db.id row = job /\ row ∈ t.
Proof.
  induction t as [|r rest IH]; simpl; [discriminate|].
  destruct (String.eqb (Db.id r) job) eqn:Heq.
  - intros [= ->]. apply String.eqb_eq in Heq. split; [done|].
    apply elem_of_cons. by left.
  - intros H. destruct (IH H) as [? ?]. split; [done|].
    apply elem_of_cons. by right.
Qed.

(* ===================================================================== *)
(** ** Further properties of the endpoints                                 *)
(* ===================================================================== *)

(** X12. [job_status] answers 404 "Job not found." exactly for the ids
    that have no row; for an id that has one it returns the id, status,
    provider, text, summary and creation time of a stored row with that
    id. *)
Theorem job_status_found_iff_stored (job : string) (w : World) :
  (job_status job w = Raises (HTTPException 404 "Job not found.")
   <-> job ∉ map Db.id (table w))
  /\ (forall resp,
        job_status job w = Returns resp ->
        js_job_id resp = job
        /\ exists row,
             row ∈ table w
             /\ Db.id row = job
             /\ js_status resp = Db.status row
             /\ js_provider resp = Db.provider row
             /\ js_text resp = Db.text row
             /\ js_summary resp = Db.summary row
             /\ js_created_at resp = Db.created_at row).
Proof.
  unfold job_status. split.
  - rewrite <- first_by_id_none.
    destruct (Db.first_by_id job (table w)); split; congruence.
  - intros resp.
    destruct (Db.first_by_id job (table w)) as [row|] eqn:Hrow;
      [|discriminate].
    intros [= <-]. destruct (first_by_id_some _ _ _ Hrow) as [Hid Hin].
    simpl. split; [exact Hid|]. exists row. auto 10.
Qed.

Lemma wav_try_block_ok (E : Env) (b : list byte) (h : Wave_read) :
  wave_open E b = Returns h ->
  (wav_try_block E b = Returns tt
   <-> 8000 <= getframerate h
       /\ getframerate h <= getnframes h <= 300 * getframerate h).
Proof.
  intros Hopen. unfold wav_try_block. rewrite Hopen. simpl.
  unfold truediv.
  destruct (Z.eqb_spec (getframerate h) 0) as [H0|H0]; simpl.
  { split; [discriminate | lia]. }
  destruct (Z.ltb_spec 0 (getframerate h)) as [Hpos|Hneg]; simpl;
    unfold Qlt_bool, Qle_bool; simpl.
  - rewrite Z2Pos.id by lia.
    destruct (Z.leb_spec (1 * getframerate h) (getnframes h * 1)); simpl;
      [|split; [discriminate | lia]].
    destruct (Z.leb_spec (getnframes h * 1) (300 * getframerate h)); simpl;
      [|split; [discriminate | lia]].
    destruct (Z.ltb_spec (getframerate h) 8000); simpl;
      split; try discriminate; try lia; auto.
  - rewrite Z2Pos.id by lia.
    destruct (Z.leb_spec (1 * - getframerate h) (- getnframes h * 1)); simpl;
      [|split; [discriminate | lia]].
    destruct (Z.leb_spec (- getnframes h * 1) (300 * - getframerate h)); simpl;
      [|split; [discriminate | lia]].
    destruct (Z.ltb_spec (getframerate h) 8000); simpl;
      split; try discriminate; try lia; auto.
Qed.

(** X13. A [.wav] of admissible size whose header parses is admitted
    exactly when its frame rate is at least 8000 Hz and its frame count is
    between one and three hundred times the frame rate (a duration from
    1.0 s to 300.0 s, both ends included); a header that does not parse is
    rejected. *)
Theorem wav_admitted_iff_in_bounds (E : Env) (f : UploadFile) :
  extension f = ".wav" ->
  100 <= len (file f) <= 10 * 1024 * 1024 ->
  (forall h,
     wave_open E (file f) = Returns h ->
     (validate_audio_file E f = Returns (file f)
      <-> 8000 <= getframerate h
          /\ getframerate h <= getnframes h <= 300 * getframerate h))
  /\ (raised (wave_open E (file f)) = true ->
      validate_audio_file E f
      = Raises (HTTPException 400 "Corrupted or invalid WAV file.")).
Proof.
  intros Hext Hlen. rewrite (validate_wav E f Hext Hlen). split.
  - intros h Hopen. rewrite <- (wav_try_block_ok E (file f) h Hopen).
    destruct (wav_try_block E (file f)) as [[]|e];
      split; congruence.
  - intros Hraise. unfold wav_try_block.
    destruct (wave_open E (file f)); [discriminate | reflexivity].
Qed.

(** One second at 8000 Hz and three hundred seconds at 8000 Hz are both
    admitted. *)
Lemma wav_admitted_iff_in_bounds_witness :
  validate_audio_file
    (with_wave (Returns {| getnframes := 8000; getframerate := 8000 |}) quiet)
    (upload "talk.wav" 100) = Returns (zeros 100)
  /\ validate_audio_file
       (with_wave (Returns {| getnframes := 2400000; getframerate := 8000 |})
          quiet)
       (upload "talk.wav" 100) = Returns (zeros 100).
Proof.
  split.
  - destruct (wav_admitted_iff_in_bounds
                (with_wave
                   (Returns {| getnframes := 8000; getframerate := 8000 |})
                   quiet)
                (upload "talk.wav" 100)) as [Hiff _].
    + reflexivity.
    + vm_compute. split; discriminate.
    + apply (Hiff {| getnframes := 8000; getframerate := 8000 |} eq_refl).
      simpl. lia.
  - destruct (wav_admitted_iff_in_bounds
                (with_wave
                   (Returns {| getnframes := 2400000; getframerate := 8000 |})
                   quiet)
                (upload "talk.wav" 100)) as [Hiff _].
    + reflexivity.
    + vm_compute. split; discriminate.
    + apply (Hiff {| getnframes := 2400000; getframerate := 8000 |} eq_refl).
      simpl. lia.
Defined.

(** What the validator can answer. *)
Lemma validate_inversion (E : Env) (f : UploadFile) :
  (forall b,
     validate_audio_file E f = Returns b ->
     b = file f
     /\ extension f ∈ SUPPORTED_EXTENSIONS
     /\ 100 <= len (file f) <= 10 * 1024 * 1024)
  /\ (forall e,
        validate_audio_file E f = Raises e ->
        exists detail,
          e = HTTPException 400 detail
          /\ detail ∈ ["Unsupported file type.";
                       "File is empty or too small.";
                       "File is too large.";
                       "Corrupted or invalid WAV file."]).
Proof.
  unfold validate_audio_file.
  destruct (supported (extension f)) eqn:Hsup; simpl.
  - apply supported_spec in Hsup.
    destruct ((len (file f) =? 0) || (len (file f) <? MIN_FILE_SIZE))
      eqn:Hmin.
    { split; [discriminate|]. intros e [= <-]. eexists. split; [done|].
      repeat constructor. }
    destruct (MAX_FILE_SIZE <? len (file f)) eqn:Hmax.
    { split; [discriminate|]. intros e [= <-]. eexists. split; [done|].
      repeat constructor. }
    apply orb_false_iff in Hmin as [_ Hmin].
    apply Z.ltb_ge in Hmin, Hmax. unfold MIN_FILE_SIZE in Hmin.
    unfold MAX_FILE_SIZE in Hmax.
    destruct (String.eqb (extension f) ".wav").
    + destruct (wav_try_block E (file f)); simpl.
      * split; [|discriminate]. intros b [= <-]. repeat split; auto; lia.
      * split; [discriminate|]. intros e' [= <-]. eexists.
        split; [done|]. repeat constructor.
    + split; [|discriminate]. intros b [= <-]. repeat split; auto; lia.
  - split; [discriminate|]. intros e [= <-]. eexists. split; [done|].
    repeat constructor.
Qed.

(** X14. The validator returns the uploaded bytes unchanged or raises
    status 400: whatever it admits has a supported extension and between
    100 bytes and 10 MiB, and whatever it rejects carries one of four
    reasons. *)
Theorem validator_admits_or_400 (E : Env) (f : UploadFile) :
  (forall b,
     validate_audio_file E f = Returns b ->
     b = file f
     /\ extension f ∈ SUPPORTED_EXTENSIONS
     /\ 100 <= len (file f) <= 10 * 1024 * 1024)
  /\ (forall e,
        validate_audio_file E f = Raises e ->
        exists detail,
          e = HTTPException 400 detail
          /\ detail ∈ ["Unsupported file type.";
                       "File is empty or too small.";
                       "File is too large.";
                       "Corrupted or invalid WAV file."]).
Proof. exact (validate_inversion E f). Qed.

(** X15. The submission endpoint never writes to the Job Store: whatever
    it answers, every [job_status] query answers as before, so a job that
    was just accepted under a new id is still reported as not found. *)
Theorem submission_persists_nothing
    (E : Env) (f : UploadFile) (provider : string)
    (webhook_url user_id : option string) (w : World) :
  table (fst (transcribe_async E f provider webhook_url user_id w)) = table w
  /\ (forall job,
        job_status job
          (fst (transcribe_async E f provider webhook_url user_id w))
        = job_status job w)
  /\ (forall r,
        snd (transcribe_async E f provider webhook_url user_id w)
        = Returns r ->
        job_id r ∉ map Db.id (table w) ->
        job_status (job_id r)
          (fst (transcribe_async E f provider webhook_url user_id w))
        = Raises (HTTPException 404 "Job not found.")).
Proof.
  assert (table (fst (transcribe_async E f provider webhook_url user_id w))
          = table w) as Htab.
  { unfold transcribe_async.
    destruct (PROVIDER_MAP !! provider); [|reflexivity].
    destruct (validate_audio_file E f); reflexivity. }
  split; [exact Htab|]. split.
  - intros job. unfold job_status. by rewrite Htab.
  - intros r _ Hnew. unfold job_status. rewrite Htab.
    apply first_by_id_none in Hnew. by rewrite Hnew.
Qed.

(** X16. An accepted submission answers [queued] with a newly drawn id and
    appends one task to the queue, which carries that id and exactly the
    uploaded bytes, file name, provider key, webhook URL and user id; a
    rejected submission is a 400 with one of five reasons. *)
Theorem queued_task_is_the_submission
    (E : Env) (f : UploadFile) (provider : string)
    (webhook_url user_id : option string) (w : World) :
  (forall w' r,
     transcribe_async E f provider webhook_url user_id w = (w', Returns r) ->
     status r = "queued"
     /\ job_id r = uuid4 E (uuids_drawn w)
     /\ uuids_drawn w' = S (uuids_drawn w)
     /\ queue w'
        = queue w
          ++ [{| Sys.job_id := job_id r; audio_bytes := file f;
                 Sys.filename := filename f; provider_name := provider;
                 Sys.webhook_url := webhook_url;
                 Sys.user_id := user_id |}])
  /\ (forall w' e,
        transcribe_async E f provider webhook_url user_id w = (w', Raises e) ->
        exists detail,
          e = HTTPException 400 detail
          /\ detail ∈ ["Unknown provider."; "Unsupported file type.";
                       "File is empty or too small."; "File is too large.";
                       "Corrupted or invalid WAV file."]).
Proof.
  destruct (validate_inversion E f) as [Hret Hraise].
  unfold transcribe_async.
  destruct (PROVIDER_MAP !! provider).
  - destruct (validate_audio_file E f) as [b|e0].
    + destruct (Hret b eq_refl) as (-> & _). split; [|discriminate].
      intros w' r [= <- <-]. simpl. auto.
    + split; [discriminate|]. intros w' e [= _ <-].
      destruct (Hraise e0 eq_refl) as (detail & -> & Hin).
      exists detail. split; [reflexivity|]. by apply list_elem_of_further.
  - split; [discriminate|]. intros w' e [= _ <-].
    eexists. split; [reflexivity|]. apply list_elem_of_here.
Qed.

Lemma queued_task_is_the_submission_witness :
  queue (fst (transcribe_async quiet (upload "talk.mp3" 100) "aws"
                (Some "http://client/hook") (Some "u1") empty_world))
  = [{| Sys.job_id := "uuid-0"; audio_bytes := zeros 100;
        Sys.filename := "talk.mp3"; provider_name := "aws";
        Sys.webhook_url := Some "http://client/hook";
        Sys.user_id := Some "u1" |}].
Proof.
  destruct (queued_task_is_the_submission quiet (upload "talk.mp3" 100)
              "aws" (Some "http://client/hook") (Some "u1") empty_world)
    as [Hacc _].
  destruct (Hacc _ _ eq_refl) as (_ & _ & _ & Hq).
  exact Hq.
Defined.

(** What a reader finds after a successful delivery. *)
Lemma delivered_job_status (worker : nat -> Env) (args : TaskArgs)
    (w1 : World) :
  snd (deliver worker args w1) = SUCCESS ->
  exists resp,
    job_status (Sys.job_id args) (fst (deliver worker args w1)) = Returns resp
    /\ js_job_id resp = Sys.job_id args
    /\ js_provider resp = provider_name args
    /\ (js_status resp = "completed" \/ js_status resp = "failed").
Proof.
  destruct (deliver worker args w1) as [w2 st] eqn:Hrun.
  unfold deliver in Hrun.
  destruct (run_task_effects worker args _ _ _ _ _ Hrun) as [_ Hst].
  simpl. intros ->. destruct Hst as (l & n & Htab & _ & Hl).
  unfold job_status. rewrite Htab.
  change (Sys.job_id args) with (Db.id (history_row args l)) at 1.
  rewrite first_by_id_merge. eexists. split; [reflexivity|]. simpl.
  repeat split; auto.
  destruct Hl as [[-> _] | [-> _]]; auto.
Qed.

(** X17. A job accepted by the endpoint names a registered provider, and
    once a delivery of its queued task succeeds, [job_status] for the id
    that the endpoint returned finds the job, with that id, the submitted
    provider and the status [completed] or [failed]. *)
Theorem accepted_job_becomes_readable
    (E : Env) (f : UploadFile) (provider : string)
    (webhook_url user_id : option string) (w w1 : World)
    (r : SubmitJobResponse) (worker : nat -> Env) :
  transcribe_async E f provider webhook_url user_id w = (w1, Returns r) ->
  exists args,
    last (queue w1) = Some args
    /\ is_Some (PROVIDER_MAP !! provider_name args)
    /\ (snd (deliver worker args w1) = SUCCESS ->
        exists resp,
          job_status (job_id r) (fst (deliver worker args w1)) = Returns resp
          /\ js_job_id resp = job_id r
          /\ js_provider resp = provider
          /\ (js_status resp = "completed" \/ js_status resp = "failed")).
Proof.
  unfold transcribe_async.
  destruct (PROVIDER_MAP !! provider) as [p|] eqn:Hp; [|discriminate].
  destruct (validate_audio_file E f) as [b|]; [|discriminate].
  intros [= <- <-]. eexists. simpl. split; [apply last_snoc|].
  simpl. split; [by rewrite Hp|].
  apply delivered_job_status.
Qed.

(** A demo job for the Google provider: accepted, delivered, and then
    found by its id as completed. *)
Lemma accepted_job_becomes_readable_witness :
  let w1 := fst (transcribe_async quiet (upload "talk.mp3" 100) "google"
                   None None empty_world) in
  let args := {| Sys.job_id := "uuid-0"; audio_bytes := zeros 100;
                 Sys.filename := "talk.mp3"; provider_name := "google";
                 Sys.webhook_url := None; Sys.user_id := None |} in
  exists resp,
    job_status "uuid-0" (fst (deliver (fun _ => quiet) args w1))
    = Returns resp
    /\ js_provider resp = "google".
Proof.
  intros w1 args.
  destruct (accepted_job_becomes_readable quiet (upload "talk.mp3" 100)
              "google" None None empty_world _ _ (fun _ => quiet) eq_refl)
    as (args' & Hlast & _ & Hread).
  vm_compute in Hlast. injection Hlast as <-.
  destruct (Hread eq_refl) as (resp & Hresp & _ & Hprov & _).
  exists resp. split; [exact Hresp | exact Hprov].
Defined.

(** X18. The names that [GET /providers] lists are exactly the provider
    keys that the submission endpoint accepts: for every other key, and
    only then, it answers "Unknown provider.". *)
Theorem listed_providers_are_accepted
    (E : Env) (f : UploadFile) (k : string)
    (webhook_url user_id : option string) (w : World) :
  (k ∈ list_providers <-> is_Some (PROVIDER_MAP !! k))
  /\ (k ∉ list_providers
      <-> transcribe_async E f k webhook_url user_id w
          = (w, Raises (HTTPException 400 "Unknown provider."))).
Proof.
  assert (k ∈ list_providers <-> is_Some (PROVIDER_MAP !! k)) as Hiff.
  { split.
    - unfold list_providers, PROVIDERS. simpl. intros Hin.
      repeat (apply elem_of_cons in Hin; destruct Hin as [->|Hin];
              [by eexists|]).
      by apply elem_of_nil in Hin.
    - intros [p Hp]. destruct (registered k p Hp) as [Hin <-].
      unfold list_providers. by apply list_elem_of_fmap_2. }
  split; [exact Hiff|]. rewrite Hiff. unfold transcribe_async.
  destruct (PROVIDER_MAP !! k) as [p|] eqn:Hp.
  - split; [intros Hno; contradict Hno; by eexists|].
    destruct (validate_inversion E f) as [_ Hraise].
    destruct (validate_audio_file E f) as [b|e0]; [discriminate|].
    destruct (Hraise e0 eq_refl) as (detail & -> & Hin).
    intros [= ->].
    repeat (apply elem_of_cons in Hin; destruct Hin as [Hin|Hin];
            [discriminate|]).
    by apply elem_of_nil in Hin.
  - split; [reflexivity|]. intros _ [? ?]. discriminate.
Qed.

(* ===================================================================== *)
(** ** The streaming endpoint                                              *)
(* ===================================================================== *)

Lemma stream_loop_spec (E : Env) (p : Provider) (incoming : list ws_received) :
  forall buffer events leftover,
    stream_loop E p buffer incoming = (events, leftover) ->
    Forall (fun b => 16000 < len b) (transcribed events)
    /\ last events = Some WsClose
    /\ (forallb (fun e => negb (is_ws_error e)) events = true ->
        exists chunks,
          incoming = map Bytes chunks
          /\ List.concat (transcribed events) ++ leftover
             = buffer ++ List.concat chunks
          /\ (len buffer <= 16000 -> len leftover <= 16000)
          /\ List.length (List.filter is_ws_partial events)
             = List.length (transcribed events)).
Proof.
  induction incoming as [|[chunk|e0] rest IH]; intros buffer events leftover;
    simpl.
  - intros [= <- <-]. simpl. split; [constructor|]. split; [reflexivity|].
    intros _. exists []. simpl. rewrite app_nil_r. auto.
  - destruct (Z.ltb_spec 16000 (len (buffer ++ chunk))) as [Hbig|Hsmall].
    + destruct (transcribe p E (buffer ++ chunk) "stream.wav") as [t|e].
      * destruct (stream_loop E p [] rest) as [events' leftover'] eqn:Hrest.
        intros [= <- <-].
        destruct (IH [] events' leftover' Hrest) as (Hall & Hlast & Hok).
        simpl. split; [by constructor|]. split.
        { destruct events'; [discriminate | exact Hlast]. }
        intros Hno.
        destruct (Hok Hno) as (chunks & -> & Hcat & Hlen & Hcount).
        exists (chunk :: chunks). split; [reflexivity|].
        simpl in Hcat. simpl. rewrite <- !app_assoc, Hcat.
        split; [reflexivity|]. split; [|by rewrite Hcount].
        intros _. apply Hlen. unfold len. simpl. lia.
      * intros [= <- <-]. simpl. split; [by repeat constructor|].
        split; [reflexivity | discriminate].
    + intros Hrun.
      destruct (IH (buffer ++ chunk) events leftover Hrun)
        as (Hall & Hlast & Hok).
      split; [exact Hall|]. split; [exact Hlast|].
      intros Hno. destruct (Hok Hno) as (chunks & -> & Hcat & Hlen & Hcount).
      exists (chunk :: chunks). split; [reflexivity|].
      rewrite <- app_assoc in Hcat. simpl. auto.
  - intros [= <- <-]. simpl. split; [constructor|].
    split; [reflexivity | discriminate].
Qed.

(** X19. The streaming endpoint accepts, and in the end closes, the
    socket; every buffer it hands to the provider is longer than 16000
    bytes; and as long as no error is sent, every message received was a
    binary one, and the buffers handed over, followed by the at most 16000
    bytes still buffered at disconnect, are exactly the bytes received, in
    order, each flush answered by one partial message. *)
Theorem stream_flushes_past_threshold (E : Env)
    (incoming : list ws_received) :
  exists events leftover,
    websocket_transcribe_stream E incoming
    = Returns (WsAccept :: events, leftover)
    /\ Forall (fun b => 16000 < len b) (transcribed events)
    /\ last events = Some WsClose
    /\ (forallb (fun e => negb (is_ws_error e)) events = true ->
        exists chunks,
          incoming = map Bytes chunks
          /\ List.concat (transcribed events) ++ leftover
             = List.concat chunks
          /\ len leftover <= 16000
          /\ List.length (List.filter is_ws_partial events)
             = List.length (transcribed events)).
Proof.
  unfold websocket_transcribe_stream.
  change (PROVIDER_MAP !! "openai") with (Some OpenAIProvider).
  cbv beta iota.
  destruct (stream_loop E OpenAIProvider [] incoming)
    as [events leftover] eqn:Hrun.
  exists events, leftover. split; [reflexivity|].
  destruct (stream_loop_spec E OpenAIProvider incoming [] events leftover
              Hrun) as (Hall & Hlast & Hok).
  split; [exact Hall|]. split; [exact Hlast|].
  intros Hno. destruct (Hok Hno) as (chunks & Hin & Hcat & Hlen & Hcount).
  exists chunks. split; [exact Hin|]. split; [exact Hcat|].
  split; [|exact Hcount].
  apply Hlen. unfold len. simpl. lia.
Qed.

Lemma stream_loop_short (E : Env) (p : Provider)
    (chunks : list (list byte)) :
  forall buffer,
    len (buffer ++ List.concat chunks) <= 16000 ->
    stream_loop E p buffer (map Bytes chunks)
    = ([WsClose], buffer ++ List.concat chunks).
Proof.
  induction chunks as [|chunk rest IH]; intros buffer; simpl.
  - by rewrite app_nil_r.
  - intros Hlen.
    assert (len (buffer ++ chunk) <= 16000) as Hsmall.
    { revert Hlen. unfold len. rewrite !length_app. lia. }
    apply Z.ltb_ge in Hsmall. rewrite Hsmall, IH.
    + by rewrite <- app_assoc.
    + by rewrite <- app_assoc.
Qed.

(** X20. A client that disconnects after sending binary messages of 16000
    bytes or fewer in total gets no message at all: the provider is never
    called, and the received bytes are still in the buffer when the socket
    is closed. *)
Theorem short_stream_is_never_transcribed (E : Env)
    (chunks : list (list byte)) :
  len (List.concat chunks) <= 16000 ->
  websocket_transcribe_stream E (map Bytes chunks)
  = Returns ([WsAccept; WsClose], List.concat chunks).
Proof.
  intros Hlen. unfold websocket_transcribe_stream.
  change (PROVIDER_MAP !! "openai") with (Some OpenAIProvider).
  cbv beta iota.
  by rewrite (stream_loop_short E OpenAIProvider chunks [] Hlen).
Qed.

Lemma short_stream_is_never_transcribed_witness :
  websocket_transcribe_stream keyed [Bytes (zeros 17); Bytes (zeros 17)]
  = Returns ([WsAccept; WsClose], zeros 34).
Proof.
  apply (short_stream_is_never_transcribed keyed [zeros 17; zeros 17]).
  vm_compute. discriminate.
Defined.

Lemma stream_loop_error (E : Env) (p : Provider)
    (incoming : list ws_received) :
  forall buffer events leftover,
    stream_loop E p buffer incoming = (events, leftover) ->
    existsb is_ws_error events = true ->
    exists before e,
      existsb is_ws_error before = false
      /\ ((exists b,
             events = before ++ [WsTranscribe b; WsError e; WsClose]
             /\ transcribe p E b "stream.wav" = Raises e)
          \/ (events = before ++ [WsError e; WsClose]
              /\ exists chunks rest,
                   incoming = map Bytes chunks ++ ReceiveRaises e :: rest)).
Proof.
  induction incoming as [|[chunk|e0] rest IH]; intros buffer events leftover;
    simpl.
  - intros [= <- <-]. discriminate.
  - destruct (16000 <? len (buffer ++ chunk)).
    + destruct (transcribe p E (buffer ++ chunk) "stream.wav") as [t|e]
        eqn:Ht.
      * destruct (stream_loop E p [] rest) as [events' leftover'] eqn:Hrest.
        intros [= <- <-]. simpl. intros Herr.
        destruct (IH [] events' leftover' Hrest Herr)
          as (before & e & Hclean & Hcase).
        exists (WsTranscribe (buffer ++ chunk) :: WsPartial t :: before), e.
        split; [exact Hclean|].
        destruct Hcase as [(b & -> & Hraise)
                          |(-> & chunks & rest' & ->)].
        -- left. exists b. auto.
        -- right. split; [reflexivity|].
           exists (chunk :: chunks), rest'. reflexivity.
      * intros [= <- <-] _. exists [], e. split; [reflexivity|].
        left. exists (buffer ++ chunk). auto.
    + intros Hrun Herr.
      destruct (IH (buffer ++ chunk) events leftover Hrun Herr)
        as (before & e & Hclean & Hcase).
      exists before, e. split; [exact Hclean|].
      destruct Hcase as [Hflush|(-> & chunks & rest' & ->)];
        [by left|].
      right. split; [reflexivity|].
      exists (chunk :: chunks), rest'. reflexivity.
  - intros [= <- <-] _. exists [], e0. split; [reflexivity|].
    right. split; [reflexivity|]. exists [], rest. reflexivity.
Qed.

(** X21. When the streaming endpoint sends an error, that error is either
    the exception that [receive_bytes] raised on the first message that is
    not a binary one (a text message, for instance), or the exception
    raised by the construction of the OpenAI client during a flush, with
    [OPENAI_API_KEY] set. It is the only error sent, the socket is closed
    right after it, and the messages that follow are not read. *)
Theorem stream_error_ends_stream (E : Env) (incoming : list ws_received)
    (events : list ws_event) (leftover : list byte) :
  websocket_transcribe_stream E incoming = Returns (events, leftover) ->
  existsb is_ws_error events = true ->
  exists before e,
    existsb is_ws_error before = false
    /\ ((exists b,
           events
           = WsAccept :: before ++ [WsTranscribe b; WsError e; WsClose]
           /\ getenv E "OPENAI_API_KEY" "" <> ""
           /\ OpenAI E (getenv E "OPENAI_API_KEY" "") = Raises e)
        \/ (events = WsAccept :: before ++ [WsError e; WsClose]
            /\ exists chunks rest,
                 incoming = map Bytes chunks ++ ReceiveRaises e :: rest)).
Proof.
  unfold websocket_transcribe_stream.
  change (PROVIDER_MAP !! "openai") with (Some OpenAIProvider).
  cbv beta iota.
  destruct (stream_loop E OpenAIProvider [] incoming)
    as [events' leftover'] eqn:Hrun.
  intros [= <- <-]. simpl. intros Herr.
  destruct (stream_loop_error E OpenAIProvider incoming [] events' leftover'
              Hrun Herr) as (before & e & Hclean & Hcase).
  exists before, e. split; [exact Hclean|].
  destruct Hcase as [(b & -> & Hraise) | (-> & Hin)].
  - left. exists b. apply OpenAI_raises_iff in Hraise as [Hkey Hctor].
    split; [reflexivity|]. split; [by apply truthy_true_iff | exact Hctor].
  - right. split; [reflexivity | exact Hin].
Qed.

(** A text message after three bytes: the error of [receive_bytes] is
    sent, the socket is closed, and the message after it is not read. *)
Lemma stream_error_ends_stream_witness :
  websocket_transcribe_stream quiet
    [Bytes (zeros 3); text_frame; Bytes (zeros 5)]
  = Returns ([WsAccept; WsError (LibraryError "KeyError: 'bytes'"); WsClose],
             zeros 3).
Proof.
  destruct (stream_error_ends_stream quiet
              [Bytes (zeros 3); text_frame; Bytes (zeros 5)]
              _ _ eq_refl eq_refl) as (before & e & _ & _).
  reflexivity.
Defined.

Lemma stream_loop_without_key (E : Env) (incoming : list ws_received) :
  getenv E "OPENAI_API_KEY" "" = "" ->
  forall buffer events leftover,
    stream_loop E OpenAIProvider buffer incoming = (events, leftover) ->
    existsb is_text_partial events = false
    /\ List.length (List.filter is_ws_partial events)
       = List.length (transcribed events)
    /\ existsb is_ws_error events = existsb is_receive_error incoming.
Proof.
  intros Hkey.
  induction incoming as [|[chunk|e0] rest IH]; intros buffer events leftover;
    simpl.
  - intros [= <- <-]. auto.
  - destruct (16000 <? len (buffer ++ chunk)); [|apply IH].
    rewrite Hkey. simpl.
    destruct (stream_loop E OpenAIProvider [] rest)
      as [events' leftover'] eqn:Hrest.
    intros [= <- <-]. simpl.
    destruct (IH [] events' leftover' Hrest) as (Htext & Hcount & Herr).
    rewrite Hcount. auto.
  - intros [= <- <-]. auto.
Qed.

(** X22. Without [OPENAI_API_KEY] the streaming endpoint never sends text:
    every flush is answered by a partial message whose text is absent.
    It sends an error exactly when [receive_bytes] raises, that is, when
    the client sends a message that is not a binary one. *)
Theorem keyless_stream_sends_null_partials (E : Env)
    (incoming : list ws_received) :
  getenv E "OPENAI_API_KEY" "" = "" ->
  exists events leftover,
    websocket_transcribe_stream E incoming = Returns (events, leftover)
    /\ existsb is_text_partial events = false
    /\ List.length (List.filter is_ws_partial events)
       = List.length (transcribed events)
    /\ existsb is_ws_error events = existsb is_receive_error incoming.
Proof.
  intros Hkey. unfold websocket_transcribe_stream.
  change (PROVIDER_MAP !! "openai") with (Some OpenAIProvider).
  cbv beta iota.
  destruct (stream_loop E OpenAIProvider [] incoming)
    as [events leftover] eqn:Hrun.
  exists (WsAccept :: events), leftover. split; [reflexivity|].
  exact (stream_loop_without_key E incoming Hkey [] events leftover Hrun).
Qed.

Lemma keyless_stream_sends_null_partials_witness :
  exists leftover,
    websocket_transcribe_stream quiet [Bytes big_chunk; Bytes (zeros 3)]
    = Returns ([WsAccept; WsTranscribe big_chunk; WsPartial None; WsClose],
               leftover).
Proof.
  destruct (keyless_stream_sends_null_partials quiet
              [Bytes big_chunk; Bytes (zeros 3)] eq_refl)
    as (events & leftover & Hrun & _ & _).
  exists leftover. rewrite Hrun. vm_compute in Hrun.
  injection Hrun as <- <-. reflexivity.
Defined.

(* ===================================================================== *)
(** ** The analytics endpoints                                             *)
(* ===================================================================== *)

(** A grouped count has an entry for the keys that occur, holding the
    number of their rows. *)
Lemma group_count_lookup {K : Type} `{Countable K}
    (key : Db.TranscriptionHistory -> K) (k : K)
    (rows : list Db.TranscriptionHistory) :
  Db.group_count key rows !! k
  = match Db.count_rows key k rows with
    | O => None
    | S n => Some (S n)
    end.
Proof.
  unfold Db.count_rows.
  induction rows as [|row rest IH]; simpl; [apply lookup_empty|].
  rewrite lookup_insert. case_decide as Hk.
  - subst k. rewrite bool_decide_eq_true_2 by reflexivity. simpl.
    rewrite IH. by destruct (List.length _).
  - rewrite bool_decide_eq_false_2 by assumption. exact IH.
Qed.

Lemma count_rows_filter_le {K : Type} `{EqDecision K}
    (key : Db.TranscriptionHistory -> K) (k : K)
    (keep : Db.TranscriptionHistory -> bool)
    (rows : list Db.TranscriptionHistory) :
  (Db.count_rows key k (List.filter keep rows) <= Db.count_rows key k rows)%nat.
Proof.
  unfold Db.count_rows.
  induction rows as [|row rest IH]; simpl; [lia|].
  destruct (keep row); simpl; destruct (bool_decide (key row = k));
    simpl; lia.
Qed.

(** X23. Every provider that [/analytics/errors] reports is also in
    [/analytics/providers], with an error count of at least one and at
    most the provider's job count; a provider whose jobs are all
    [completed] is not reported. *)
Theorem errors_within_provider_counts (w : World) (k : string) :
  (forall n,
     analytics_errors w !! k = Some n ->
     exists m, analytics_providers w !! k = Some m /\ (1 <= n <= m)%nat)
  /\ ((forall row, row ∈ table w -> Db.provider row = k ->
         Db.status row = "completed") ->
      analytics_errors w !! k = None).
Proof.
  unfold analytics_errors, analytics_providers.
  rewrite !group_count_lookup. split.
  - intros n Hn.
    pose proof (count_rows_filter_le Db.provider k Db.not_completed (table w))
      as Hle.
    destruct (Db.count_rows Db.provider k
                (List.filter Db.not_completed (table w))) as [|e];
      [discriminate|].
    injection Hn as <-.
    destruct (Db.count_rows Db.provider k (table w)) as [|m]; [lia|].
    exists (S m). split; [reflexivity | lia].
  - intros Hall.
    assert (Db.count_rows Db.provider k
              (List.filter Db.not_completed (table w)) = 0%nat) as ->;
      [|reflexivity].
    unfold Db.count_rows. induction (table w) as [|row rest IH]; simpl;
      [reflexivity|].
    assert (forall r, r ∈ rest -> Db.provider r = k ->
                      Db.status r = "completed") as Hrest.
    { intros r Hr. apply Hall. by apply list_elem_of_further. }
    destruct (Db.not_completed row) eqn:Hnc; simpl; [|by apply IH].
    destruct (bool_decide (Db.provider row = k)) eqn:Hk; simpl;
      [|by apply IH].
    apply bool_decide_eq_true in Hk.
    unfold Db.not_completed in Hnc.
    rewrite (Hall row (list_elem_of_here _ _) Hk) in Hnc. discriminate.
Qed.

Lemma errors_within_provider_counts_witness :
  let w := fst (deliver (fun _ => quiet) (job "openai" None) empty_world) in
  analytics_errors w !! "openai" = Some 1%nat
  /\ exists m, analytics_providers w !! "openai" = Some m
               /\ (1 <= 1 <= m)%nat.
Proof.
  intros w. split; [reflexivity|].
  destruct (errors_within_provider_counts w "openai") as [Hle _].
  apply Hle. reflexivity.
Defined.

Lemma count_rows_merge_new (h : Db.TranscriptionHistory) (now : Z)
    (k : string) (t : list Db.TranscriptionHistory) :
  Db.first_by_id (Db.id h) t = None ->
  Db.count_rows Db.provider k (Db.merge h now t)
  = (Db.count_rows Db.provider k t
     + (if bool_decide (Db.provider h = k) then 1 else 0))%nat.
Proof.
  unfold Db.count_rows.
  induction t as [|row rest IH]; simpl.
  - intros _. by destruct (bool_decide (Db.provider h = k)).
  - destruct (String.eqb (Db.id row) (Db.id h)); [discriminate|].
    intros Hnone. simpl.
    destruct (bool_decide (Db.provider row = k)); simpl;
      rewrite (IH Hnone); reflexivity.
Qed.

Lemma count_rows_merge_same (h old : Db.TranscriptionHistory) (now : Z)
    (k : string) (t : list Db.TranscriptionHistory) :
  Db.first_by_id (Db.id h) t = Some old ->
  Db.provider old = Db.provider h ->
  Db.count_rows Db.provider k (Db.merge h now t)
  = Db.count_rows Db.provider k t.
Proof.
  unfold Db.count_rows. intros Hold Hprov.
  induction t as [|row rest IH]; simpl in *; [discriminate|].
  destruct (String.eqb (Db.id row) (Db.id h)); simpl.
  - injection Hold as ->. rewrite Hprov. simpl.
    by destruct (bool_decide (Db.provider h = k)).
  - destruct (bool_decide (Db.provider row = k)); simpl;
      rewrite (IH Hold); reflexivity.
Qed.

(** X24. In [/analytics/providers] a write for a new job id adds one to
    the count of its provider and changes no other count, and a write for
    an id that is already stored under the same provider changes nothing:
    a job that is written again is not counted twice. *)
Theorem upsert_counts_job_once
    (h : Db.TranscriptionHistory) (now : Z) (w : World) :
  (Db.first_by_id (Db.id h) (table w) = None ->
   forall k,
     default 0%nat
       (analytics_providers (set_table (Db.merge h now (table w)) w) !! k)
     = (default 0%nat (analytics_providers w !! k)
        + (if bool_decide (Db.provider h = k) then 1 else 0))%nat)
  /\ (forall old,
        Db.first_by_id (Db.id h) (table w) = Some old ->
        Db.provider old = Db.provider h ->
        analytics_providers (set_table (Db.merge h now (table w)) w)
        = analytics_providers w).
Proof.
  unfold analytics_providers. simpl. split.
  - intros Hnew k. rewrite !group_count_lookup.
    rewrite (count_rows_merge_new h now k (table w) Hnew).
    destruct (Db.count_rows Db.provider k (table w));
      destruct (bool_decide (Db.provider h = k)); simpl; lia.
  - intros old Hold Hprov. apply map_eq. intros k.
    rewrite !group_count_lookup.
    by rewrite (count_rows_merge_same h old now k (table w) Hold Hprov).
Qed.

Lemma upsert_counts_job_once_witness :
  let first := history_row (job "openai" None)
                 {| Celery_worker.status := "failed"; text := None;
                    summary := None |} in
  let again := history_row (job "openai" None)
                 {| Celery_worker.status := "completed";
                    text := Some "hello"; summary := None |} in
  let w := set_table (Db.merge first 10 []) empty_world in
  analytics_providers (set_table (Db.merge again 20 (table w)) w)
  = analytics_providers w.
Proof.
  intros first again w.
  destruct (upsert_counts_job_once again 20 w) as [_ Hsame].
  apply (Hsame (Db.with_created_at (Some 10) first)); reflexivity.
Defined.

(* ===================================================================== *)
(** ** File names and extensions                                           *)
(* ===================================================================== *)

Lemma rfind_from_spec (c : ascii) (s : string) :
  forall i acc,
    rfind_from c s i acc = acc
    \/ (i <= rfind_from c s i acc
        /\ String.get (Z.to_nat (rfind_from c s i acc - i)) s = Some c).
Proof.
  induction s as [|a s IH]; intros i acc; simpl; [by left|].
  destruct (IH (i + 1) (if Ascii.eqb a c then i else acc))
    as [Heq|[Hle Hget]].
  - rewrite Heq. destruct (Ascii.eqb_spec a c) as [->|Hne]; [|by left].
    right. split; [lia|]. by rewrite Z.sub_diag.
  - right. split; [lia|].
    replace (Z.to_nat
               (rfind_from c s (i + 1) (if Ascii.eqb a c then i else acc) - i))
      with (S (Z.to_nat
                 (rfind_from c s (i + 1) (if Ascii.eqb a c then i else acc)
                  - (i + 1))))
      by lia.
    exact Hget.
Qed.

Lemma rfind_found (c : ascii) (s : string) :
  0 <= rfind c s -> String.get (Z.to_nat (rfind c s)) s = Some c.
Proof.
  unfold rfind. intros Hpos.
  destruct (rfind_from_spec c s 0 (-1)) as [Heq|[_ Hget]]; [lia|].
  by rewrite Z.sub_0_r in Hget.
Qed.

Lemma rfind_lower_bound (c : ascii) (s : string) : -1 <= rfind c s.
Proof.
  unfold rfind. destruct (rfind_from_spec c s 0 (-1)) as [->|[? _]]; lia.
Qed.

Lemma app_nil_string (s : string) : "" +:+ s = s.
Proof. reflexivity. Qed.

Lemma app_cons_string (a : ascii) (s t : string) :
  String a s +:+ t = String a (s +:+ t).
Proof. reflexivity. Qed.

Lemma substring_all (s : string) : substring 0 (String.length s) s = s.
Proof. induction s as [|b s IHs]; simpl; [done|]. by rewrite IHs. Qed.

Lemma slice_split (s : string) : forall n : nat,
  substring 0 n s +:+ substring n (String.length s - n) s = s.
Proof.
  induction s as [|a s IH]; intros [|n]; simpl; try reflexivity.
  - by rewrite app_nil_string, substring_all.
  - by rewrite app_cons_string, IH.
Qed.

Lemma slice_from_head (s : string) (c : ascii) : forall n : nat,
  String.get n s = Some c ->
  exists rest, substring n (String.length s - n) s = String c rest.
Proof.
  induction s as [|a s IH]; intros [|n]; simpl; try discriminate.
  - intros [= ->]. eauto.
  - apply IH.
Qed.

Lemma lower_app (s t : string) : lower (s +:+ t) = lower s +:+ lower t.
Proof.
  induction s as [|b s IHs]; simpl; [done|].
  by rewrite !app_cons_string, IHs.
Qed.

(** [root + ext == path], and [ext] is empty or starts with the dot. *)
Lemma splitext_spec (p : string) :
  fst (splitext p) +:+ snd (splitext p) = p
  /\ (snd (splitext p) = ""
      \/ exists rest, snd (splitext p) = String "."%char rest).
Proof.
  unfold splitext.
  destruct ((rfind "/"%char p <? rfind "."%char p) && _) eqn:Hc; simpl.
  - apply andb_true_iff in Hc as [Hlt _]. apply Z.ltb_lt in Hlt.
    pose proof (rfind_lower_bound "/"%char p).
    unfold slice_to, slice_from. split; [apply slice_split|].
    right. apply slice_from_head. apply rfind_found. lia.
  - split; [|by left]. clear. induction p as [|b p IHp]; [done|].
    rewrite app_cons_string. by rewrite IHp.
Qed.

(** X25. The extension the validator tests is the end of the lower-cased
    file name, and it is empty or starts with a dot; a file name without
    any dot has the empty extension and is rejected as an unsupported
    type, whatever the file holds. *)
Theorem extension_is_lowercased_suffix (E : Env) (f : UploadFile) :
  (exists stem, lower (filename f) = stem +:+ extension f)
  /\ (extension f = ""
      \/ exists rest, extension f = String "."%char rest)
  /\ (rfind "."%char (filename f) = -1 ->
      extension f = ""
      /\ validate_audio_file E f
         = Raises (HTTPException 400 "Unsupported file type.")).
Proof.
  unfold extension.
  destruct (splitext_spec (filename f)) as [Hcat Hdot]. split; [|split].
  - exists (lower (fst (splitext (filename f)))).
    by rewrite <- lower_app, Hcat.
  - destruct Hdot as [->|[rest ->]]; [by left|].
    right. simpl. eauto.
  - intros Hno.
    assert (snd (splitext (filename f)) = "") as Hext.
    { unfold splitext. rewrite Hno.
      pose proof (rfind_lower_bound "/"%char (filename f)).
      assert ((rfind "/"%char (filename f) <? -1) = false) as ->
        by (apply Z.ltb_ge; lia).
      reflexivity. }
    split; [by rewrite Hext|].
    unfold validate_audio_file, extension. by rewrite Hext.
Qed.

Lemma extension_is_lowercased_suffix_witness :
  extension (upload "README" 100) = ""
  /\ validate_audio_file quiet (upload "README" 100)
     = Raises (HTTPException 400 "Unsupported file type.").
Proof.
  destruct (extension_is_lowercased_suffix quiet (upload "README" 100))
    as (_ & _ & Hno).
  apply Hno. reflexivity.
Defined.

(** X26. A task that names a provider missing from the registry never
    reaches a provider: each of its four executions fails on the absent
    provider object, and the task ends in failure with the Job Store and
    the webhook untouched. *)
Theorem unregistered_provider_is_never_called
    (E : nat -> Env) (a : TaskArgs) (w : World) :
  PROVIDER_MAP !! provider_name a = None ->
  exists w',
    deliver E a w = (w', FAILURE AttributeError)
    /\ table w' = table w
    /\ observed is_transcribe w' = observed is_transcribe w
    /\ observed (is_commit (Sys.job_id a)) w'
       = observed (is_commit (Sys.job_id a)) w
    /\ observed is_post w' = observed is_post w.
Proof.
  intros Hp.
  assert (forall n w0,
            try_block (E n) (PROVIDER_MAP !! provider_name a) a w0
            = (w0, {| Celery_worker.status := "failed"; text := None;
                      summary := None |}, Some AttributeError)) as Htry.
  { intros n w0. by rewrite Hp. }
  unfold deliver, max_retries. simpl run_task.
  rewrite (attempt_raises (E 0%nat) 0 a w _ _ _ (Htry 0%nat w)). simpl.
  rewrite (attempt_raises (E 1%nat) 1 a _ _ _ _ (Htry 1%nat _)). simpl.
  rewrite (attempt_raises (E 2%nat) 2 a _ _ _ _ (Htry 2%nat _)). simpl.
  rewrite (attempt_raises (E 3%nat) 3 a _ _ _ _ (Htry 3%nat _)). simpl.
  eexists. split; [reflexivity|].
  rewrite !observed_emit. simpl. rewrite !app_nil_r. auto.
Qed.

Lemma unregistered_provider_is_never_called_witness :
  exists w',
    deliver (fun _ => quiet) (job "azure" None) empty_world
    = (w', FAILURE AttributeError)
    /\ table w' = [].
Proof.
  destruct (unregistered_provider_is_never_called (fun _ => quiet)
              (job "azure" None) empty_world eq_refl)
    as (w' & Hrun & Htab & _).
  exists w'. split; [exact Hrun | exact Htab].
Defined.
